(** * Presence tracking in [bt_watch.py]: the [DeviceTracker] state machine

    A shallow embedding of [Observation] and [DeviceTracker] (the four
    methods [new_scan], [update], [finalize_scan] and [check_lost]) together
    with the properties of the NEW/LOST event stream.
    Around it come the loop of [BTWatcher.run], [SimulatedScanner] and
    [load_config]; what belongs to a library there (the random generator,
    the YAML parser, [int] and [float]) is a parameter.

    Modelling choices, all taken from the source:
    - [self.devices] is a Python [dict], which iterates in insertion order;
      the order is observable in the returned event lists, so the dict is an
      association list kept in insertion order, one binding per key;
    - a per-device [info] dict is a record.  The five keys of the literal
      handed to [setdefault] are plain fields, since no method removes a
      key: for them [info.get(k, default)] is [info[k]].  The two keys that
      [update] adds afterwards (["last_seen"], ["seen"]) are optional
      fields, so that [info["seen"]] can raise [KeyError] and
      [info.get("last_seen")] can be [None], as in the source;
    - Python integers are unbounded: [Z];
    - a [datetime] is an instant with microsecond resolution: the number of
      microseconds since the epoch, in [Z];
    - a raised exception is a [Raise] result next to the state left behind. *)

From Stdlib Require Import ZArith List String Bool Lia.
From Stdlib Require Import Ascii NArith.
From Stdlib Require HexadecimalN.
Import ListNotations.

#[local] Open Scope string_scope.
#[local] Open Scope Z_scope.
#[local] Open Scope list_scope.

(** * Definitions *)

(** ** Data *)

Module Observation.
Record t : Type := mk
  { timestamp : Z;
    mac : string;
    name : string;
    address_type : string;
    rssi : Z }.
End Observation.

Module Info.
Record t : Type := mk
  { consecutive : Z;
    last_rssi : Z;
    name : string;
    address_type : string;
    active : bool;
    last_seen : option Z;
    seen : option bool }.

Definition set_consecutive (n : Z) (i : t) : t :=
  mk n (last_rssi i) (name i) (address_type i) (active i) (last_seen i) (seen i).

Definition set_active (b : bool) (i : t) : t :=
  mk (consecutive i) (last_rssi i) (name i) (address_type i) b (last_seen i) (seen i).

Definition set_seen (b : bool) (i : t) : t :=
  mk (consecutive i) (last_rssi i) (name i) (address_type i) (active i)
     (last_seen i) (Some b).
End Info.

Inductive event_type : Type := NEW | LOST.

Module Event.
Record t : Type := mk
  { type : event_type;
    mac : string;
    name : string;
    rssi : Z }.
End Event.

Inductive exn : Type :=
| KeyError (key : string).

Inductive result (A : Type) : Type :=
| Ok (a : A)
| Raise (e : exn).

Arguments Ok {A} a.
Arguments Raise {A} e.

(** ** The dict of devices *)

Definition dict : Type := list (string * Info.t).

Definition keys (d : dict) : list string := map fst d.

(** [d.get(k)] *)
Fixpoint lookup (k : string) (d : dict) : option Info.t :=
  match d with
  | [] => None
  | (k', v) :: rest => if String.eqb k' k then Some v else lookup k rest
  end.

(** [d.setdefault(k, v)]: a new key goes last, an old binding is kept. *)
Definition setdefault (k : string) (v : Info.t) (d : dict) : dict :=
  match lookup k d with
  | Some _ => d
  | None => d ++ [(k, v)]
  end.

(** In-place mutation of the dict stored under [k]. *)
Fixpoint alter (f : Info.t -> Info.t) (k : string) (d : dict) : dict :=
  match d with
  | [] => []
  | (k', v) :: rest =>
      if String.eqb k' k then (k', f v) :: rest else (k', v) :: alter f k rest
  end.

(** [del d[k]] *)
Fixpoint del (k : string) (d : dict) : dict :=
  match d with
  | [] => []
  | (k', v) :: rest => if String.eqb k' k then rest else (k', v) :: del k rest
  end.

(** ** DeviceTracker *)

Record DeviceTracker : Type := mkTracker
  { devices : dict;
    grace : Z;
    weak_grace : Z }.

Definition with_devices (d : dict) (t : DeviceTracker) : DeviceTracker :=
  mkTracker d (grace t) (weak_grace t).

(** [DeviceTracker.__init__] *)
Definition init (grace_seconds weak_grace_seconds : Z) : DeviceTracker :=
  mkTracker [] grace_seconds weak_grace_seconds.

(** [DeviceTracker.new_scan] *)
Definition new_scan (t : DeviceTracker) : DeviceTracker :=
  with_devices (map (fun p => (fst p, Info.set_seen false (snd p))) (devices t)) t.

(** The literal passed to [setdefault] in [update]: no ["last_seen"] and no
    ["seen"] key yet. *)
Definition fresh_info (obs : Observation.t) : Info.t :=
  Info.mk 0 (Observation.rssi obs) (Observation.name obs)
          (Observation.address_type obs) false None None.

(** The five assignments that follow [setdefault] in [update]. *)
Definition refresh (obs : Observation.t) (i : Info.t) : Info.t :=
  Info.mk (Info.consecutive i) (Observation.rssi obs) (Observation.name obs)
          (Observation.address_type obs) (Info.active i)
          (Some (Observation.timestamp obs)) (Some true).

Definition update_dict (obs : Observation.t) (d : dict) : dict :=
  alter (refresh obs) (Observation.mac obs)
        (setdefault (Observation.mac obs) (fresh_info obs) d).

(** [DeviceTracker.update] *)
Definition update (obs : Observation.t) (t : DeviceTracker) : DeviceTracker :=
  with_devices (update_dict obs (devices t)) t.

(** One iteration of the loop of [finalize_scan]: the mutated [info] and the
    events appended. *)
Definition finalize_one (mac : string) (info : Info.t)
  : result (Info.t * list Event.t) :=
  match Info.seen info with
  | None => Raise (KeyError "seen")
  | Some true =>
      let info1 := Info.set_consecutive (Info.consecutive info + 1) info in
      if negb (Info.active info1) && (2 <=? Info.consecutive info1) then
        Ok (Info.set_active true info1,
            [Event.mk NEW mac (Info.name info1) (Info.last_rssi info1)])
      else Ok (info1, [])
  | Some false => Ok (Info.set_consecutive 0 info, [])
  end.

(** The loop over [self.devices.items()].  An exception leaves the entries
    already visited mutated and the others as they were. *)
Fixpoint finalize_loop (items : dict) : dict * result (list Event.t) :=
  match items with
  | [] => ([], Ok [])
  | (mac, info) :: rest =>
      match finalize_one mac info with
      | Raise e => (items, Raise e)
      | Ok (info', evs) =>
          let (rest', r) := finalize_loop rest in
          ((mac, info') :: rest',
           match r with
           | Ok evs' => Ok (evs ++ evs')
           | Raise e => Raise e
           end)
      end
  end.

(** [DeviceTracker.finalize_scan] *)
Definition finalize_scan (t : DeviceTracker)
  : DeviceTracker * result (list Event.t) :=
  let (d, r) := finalize_loop (devices t) in (with_devices d t, r).

(** Microseconds in [n] seconds ([timedelta(seconds=n)]). *)
Definition seconds (n : Z) : Z := n * 1000000.

(** [delta.total_seconds() > g] for a difference [delta] of two instants and
    an integer number of seconds [g].  The quotient is compared exactly;
    the double that [total_seconds] returns orders the same way against
    every integer below [2^33], so against any grace period shorter than
    two centuries; a theorem that derives a LOST event from the age of a
    record for arbitrary grace periods assumes [exact_graces]. *)
Definition total_seconds_gt (delta g : Z) : bool := seconds g <? delta.

Inductive verdict : Type :=
| Skip                    (* [last is None]: [continue] *)
| Keep                    (* not older than the grace period *)
| Lost (e : Event.t).     (* event appended, entry deleted *)

(** The body of the loop of [check_lost] for the entry [mac -> info];
    [grace] and [weak_grace] are [self.grace] and [self.weak_grace]. *)
Definition judge (grace weak_grace : Z) (now : Z) (mac : string)
    (info : Info.t) : verdict :=
  match Info.last_seen info with
  | None => Skip
  | Some last =>
      let rssi := Info.last_rssi info in
      let g := if rssi <? -90 then weak_grace else grace in
      if total_seconds_gt (now - last) g
      then Lost (Event.mk LOST mac (Info.name info) rssi)
      else Keep
  end.

(** The loop over the snapshot [list(self.devices.keys())]; [d] is the dict
    as it stands. *)
Fixpoint check_lost_loop (grace weak_grace : Z) (now : Z) (ks : list string)
    (d : dict) : dict * result (list Event.t) :=
  match ks with
  | [] => (d, Ok [])
  | mac :: ks' =>
      match lookup mac d with
      | None => (d, Raise (KeyError mac))
      | Some info =>
          match judge grace weak_grace now mac info with
          | Lost e =>
              let (d', r) :=
                check_lost_loop grace weak_grace now ks' (del mac d) in
              (d', match r with
                   | Ok evs => Ok (e :: evs)
                   | Raise x => Raise x
                   end)
          | _ => check_lost_loop grace weak_grace now ks' d
          end
      end
  end.

(** [DeviceTracker.check_lost] *)
Definition check_lost (now : Z) (t : DeviceTracker)
  : DeviceTracker * result (list Event.t) :=
  let (d, r) :=
    check_lost_loop (grace t) (weak_grace t) now (keys (devices t)) (devices t)
  in (with_devices d t, r).

(** ** Sequences of calls *)

Inductive op : Type :=
| NewScan
| Update (obs : Observation.t)
| FinalizeScan
| CheckLost (now : Z).

Definition exec (o : op) (t : DeviceTracker)
  : DeviceTracker * result (list Event.t) :=
  match o with
  | NewScan => (new_scan t, Ok [])
  | Update obs => (update obs t, Ok [])
  | FinalizeScan => finalize_scan t
  | CheckLost now => check_lost now t
  end.

(** Calls in sequence; the events of all calls, in order.  The first
    exception ends the run. *)
Fixpoint run (ops : list op) (t : DeviceTracker)
  : DeviceTracker * result (list Event.t) :=
  match ops with
  | [] => (t, Ok [])
  | o :: ops' =>
      match exec o t with
      | (t1, Raise e) => (t1, Raise e)
      | (t1, Ok evs) =>
          let (t2, r) := run ops' t1 in
          (t2, match r with
               | Ok evs' => Ok (evs ++ evs')
               | Raise e => Raise e
               end)
      end
  end.

(** The observations of one scan, fed in order. *)
Definition updates (obss : list Observation.t) (t : DeviceTracker)
  : DeviceTracker :=
  fold_left (fun acc obs => update obs acc) obss t.

(** [new_scan], the [update]s, then [finalize_scan]: the part of the loop
    of [BTWatcher.run] that produces NEW events. *)
Definition scan (obss : list Observation.t) (t : DeviceTracker)
  : DeviceTracker * result (list Event.t) :=
  finalize_scan (updates obss (new_scan t)).

(** ** The scenarios of [tests/test_tracker.py] *)

Definition base : Z := 1700000000000000.

Definition obs_test : Observation.t :=
  Observation.mk base "AA:BB:CC:DD:EE:01" "Test" "public" (-50).

Definition obs_weak : Observation.t :=
  Observation.mk base "AA:BB:CC:DD:EE:02" "Weak" "public" (-95).

(** ** The methods, entry by entry *)

(** The record that sits under [obs.mac] once [update] has run. *)
Definition updated (obs : Observation.t) (old : option Info.t) : Info.t :=
  refresh obs (match old with Some i => i | None => fresh_info obs end).

(** What the loop of [finalize_scan] makes of one entry when it does not
    raise, and the events it appends for it. *)
Definition fin_info (p : string * Info.t) : string * Info.t :=
  match finalize_one (fst p) (snd p) with
  | Ok (i, _) => (fst p, i)
  | Raise _ => p
  end.

Definition fin_events (p : string * Info.t) : list Event.t :=
  match finalize_one (fst p) (snd p) with
  | Ok (_, evs) => evs
  | Raise _ => []
  end.

Definition has_seen (p : string * Info.t) : Prop := Info.seen (snd p) <> None.

(** Whether the loop of [check_lost] keeps an entry, and the events it
    appends for it. *)
Definition stays (g wg : Z) (now : Z) (p : string * Info.t) : bool :=
  match judge g wg now (fst p) (snd p) with
  | Lost _ => false
  | _ => true
  end.

Definition lost_events (g wg : Z) (now : Z) (p : string * Info.t)
  : list Event.t :=
  match judge g wg now (fst p) (snd p) with
  | Lost e => [e]
  | _ => []
  end.

(** ** Well-formed trackers

    One binding per key, as in any Python dict, and both late keys present
    in every record. *)

Definition complete (i : Info.t) : Prop :=
  Info.last_seen i <> None /\ Info.seen i <> None.

Definition wf_dict (d : dict) : Prop :=
  NoDup (keys d) /\ Forall (fun p => complete (snd p)) d.

Definition wf (t : DeviceTracker) : Prop := wf_dict (devices t).

Fixpoint nodupb (l : list string) : bool :=
  match l with
  | [] => true
  | k :: l' => negb (existsb (String.eqb k) l') && nodupb l'
  end.

Definition is_some {A : Type} (o : option A) : bool :=
  match o with Some _ => true | None => false end.

Definition completeb (p : string * Info.t) : bool :=
  is_some (Info.last_seen (snd p)) && is_some (Info.seen (snd p)).

Definition wfb (t : DeviceTracker) : bool :=
  nodupb (keys (devices t)) && forallb completeb (devices t).

(** ** Events about one address *)

Definition for_mac (a : string) (e : Event.t) : bool :=
  String.eqb (Event.mac e) a.

Definition events_for (a : string) (evs : list Event.t) : list Event.t :=
  filter (for_mac a) evs.

(** ** One address at a time

    What a call does to the record of one address, and the events it
    returns about that address, depends on that record alone. *)

Definition step_record (g wg : Z) (a : string) (o : op) (r : option Info.t)
  : option Info.t * list Event.t :=
  match o with
  | NewScan => (option_map (Info.set_seen false) r, [])
  | Update obs =>
      if String.eqb (Observation.mac obs) a then (Some (updated obs r), [])
      else (r, [])
  | FinalizeScan =>
      match r with
      | Some i => (Some (snd (fin_info (a, i))), fin_events (a, i))
      | None => (None, [])
      end
  | CheckLost now =>
      match r with
      | Some i =>
          match judge g wg now a i with
          | Lost e => (None, [e])
          | _ => (Some i, [])
          end
      | None => (None, [])
      end
  end.

Fixpoint steps_record (g wg : Z) (a : string) (ops : list op)
    (r : option Info.t) : option Info.t * list Event.t :=
  match ops with
  | [] => (r, [])
  | o :: ops' =>
      let (r1, evs1) := step_record g wg a o r in
      let (r2, evs2) := steps_record g wg a ops' r1 in
      (r2, evs1 ++ evs2)
  end.

(** The calls of one scan, as a sequence of operations. *)
Definition scan_ops (obss : list Observation.t) : list op :=
  NewScan :: map Update obss ++ [FinalizeScan].

(** The last observation of [a] in a scan. *)
Fixpoint last_obs (a : string) (obss : list Observation.t)
  : option Observation.t :=
  match obss with
  | [] => None
  | o :: rest =>
      match last_obs a rest with
      | Some o' => Some o'
      | None => if String.eqb (Observation.mac o) a then Some o else None
      end
  end.

Definition observe_all (a : string) (obss : list Observation.t)
    (r : option Info.t) : option Info.t :=
  match last_obs a obss with
  | Some o => Some (updated o r)
  | None => r
  end.

(** One scan, seen from address [a]. *)
Definition scan_record (a : string) (obss : list Observation.t)
    (r : option Info.t) : option Info.t * list Event.t :=
  match observe_all a obss (option_map (Info.set_seen false) r) with
  | Some i => (Some (snd (fin_info (a, i))), fin_events (a, i))
  | None => (None, [])
  end.

(** ** Debounce *)

(** The body of the loop of [BTWatcher.run]: one scan, then [check_lost]. *)
Definition cycle_ops (obss : list Observation.t) (now : Z) : list op :=
  scan_ops obss ++ [CheckLost now].

Definition cycles_ops (cs : list (list Observation.t * Z)) : list op :=
  flat_map (fun c => cycle_ops (fst c) (snd c)) cs.

(** ** Grace periods *)

(** The grace period [check_lost] grants a record. *)
Definition effective_grace (t : DeviceTracker) (i : Info.t) : Z :=
  if Info.last_rssi i <? -90 then weak_grace t else grace t.

(** Grace periods for which [total_seconds_gt] is the comparison the code
    makes.  [total_seconds] returns the double nearest to the age in
    seconds; below [2^33] seconds doubles lie less than a microsecond
    apart, so an age that exceeds such a grace by a microsecond or more
    still exceeds it once rounded.  From [2^34] on that fails: there an age
    of one microsecond more than the grace rounds to the grace itself and
    the record is kept. *)
Definition exact_graces (t : DeviceTracker) : Prop :=
  Z.abs (grace t) < 2 ^ 33 /\ Z.abs (weak_grace t) < 2 ^ 33.

(** The event [check_lost] returns for the record [i] of [a]. *)
Definition lost_event (a : string) (i : Info.t) : Event.t :=
  Event.mk LOST a (Info.name i) (Info.last_rssi i).

(** The tracker of [test_weak_signal_grace] after its two scans. *)
Definition weak_tracker : DeviceTracker :=
  fst (scan [obs_weak] (fst (scan [obs_weak] (init 10 20)))).

Definition weak_info : Info.t :=
  Info.mk 2 (-95) "Weak" "public" true (Some base) (Some true).

(** The tracker of [test_new_and_lost] after its two scans. *)
Definition confirmed_tracker : DeviceTracker :=
  fst (scan [obs_test] (fst (scan [obs_test] (init 10 20)))).

Definition confirmed_info : Info.t :=
  Info.mk 2 (-50) "Test" "public" true (Some base) (Some true).

(** ** Eviction *)

Definition not_update_of (a : string) (o : op) : Prop :=
  match o with
  | Update obs => Observation.mac obs <> a
  | _ => True
  end.

(** ** Which addresses have a record *)

(** The calls made so far, each with the events it returned. *)
Fixpoint history (ops : list op) (t : DeviceTracker)
  : list (op * list Event.t) :=
  match ops with
  | [] => []
  | o :: ops' =>
      match exec o t with
      | (t1, Ok evs) => (o, evs) :: history ops' t1
      | (_, Raise _) => []
      end
  end.

(** The existence of a record as the data model words it, read off the
    history alone: some observation of the address has been recorded, and
    no LOST event for it has been returned since.  [b] tells whether that
    held before the history started. *)
Fixpoint observed_and_not_lost (b : bool) (a : string)
    (h : list (op * list Event.t)) : bool :=
  match h with
  | [] => b
  | (Update obs, _) :: h' =>
      observed_and_not_lost
        (if String.eqb (Observation.mac obs) a then true else b) a h'
  | (CheckLost _, evs) :: h' =>
      observed_and_not_lost (if existsb (for_mac a) evs then false else b) a h'
  | (_, _) :: h' => observed_and_not_lost b a h'
  end.

(** ** Reachable trackers *)

Inductive reachable : DeviceTracker -> Prop :=
| reachable_init (g wg : Z) : reachable (init g wg)
| reachable_exec (o : op) (t : DeviceTracker) :
    reachable t -> reachable (fst (exec o t)).

(** What entitles a call to return an event, in the state it is made in. *)
Definition justified (t : DeviceTracker) (o : op) (e : Event.t) : Prop :=
  match o with
  | FinalizeScan =>
      Event.type e = NEW
      /\ exists i,
          lookup (Event.mac e) (devices t) = Some i
          /\ Info.seen i = Some true
          /\ Info.active i = false
          /\ 2 <= Info.consecutive i + 1
          /\ Event.name e = Info.name i
          /\ Event.rssi e = Info.last_rssi i
  | CheckLost now =>
      Event.type e = LOST
      /\ exists i last,
          lookup (Event.mac e) (devices t) = Some i
          /\ Info.last_seen i = Some last
          /\ seconds (effective_grace t i) < now - last
          /\ Event.name e = Info.name i
          /\ Event.rssi e = Info.last_rssi i
  | _ => False
  end.

(** ** More about the tracker *)

(** The hit count of a record as [finalize_scan] leaves it: never negative,
    and below 2 for as long as the record is not confirmed. *)
Definition hits_in_step (i : Info.t) : Prop :=
  0 <= Info.consecutive i
  /\ (Info.active i = false -> Info.consecutive i <= 1).

(** What a scan that does not observe the address makes of its record. *)
Definition missed (i : Info.t) : Info.t :=
  Info.set_consecutive 0 (Info.set_seen false i).

(** ** SimulatedScanner

    [random.Random] belongs to the Python library.  A generator is any
    state with the two draws that [generate] makes; what the draws return
    is left open. *)

Class RandomGen (rng : Type) : Type :=
  { (* [self.random.random() < p / 100], for the thresholds 0.1 and 0.3 *)
    random_below : Z -> rng -> bool * rng;
    (* [self.random.randint(a, b)] *)
    randint : Z -> Z -> rng -> Z * rng }.

(** What Python promises of [randint(a, b)]. *)
Definition randint_in_range {rng : Type} (G : RandomGen rng) : Prop :=
  forall a b r, a <= b -> a <= fst (randint a b r) <= b.

(** A generator that reads its draws from a tape of integers: a chance is
    taken when the entry, as a percentage, is below the threshold, and
    [randint a b] folds the entry into [a..b].  An empty tape answers
    [False] and [a]. *)
#[export] Instance tape_gen : RandomGen (list Z) :=
  {| random_below := fun p r =>
       match r with
       | x :: r' => (x mod 100 <? p, r')
       | [] => (false, [])
       end;
     randint := fun a b r =>
       match r with
       | x :: r' => (a + x mod (b - a + 1), r')
       | [] => (a, [])
       end |}.

(** The value stored under an address in [self.active]. *)
Module SimInfo.
Record t : Type := mk
  { name : string;
    rssi : Z }.
End SimInfo.

Record SimulatedScanner (rng : Type) : Type := mkSim
  { random : rng;
    active : list (string * SimInfo.t);
    counter : N }.

Arguments mkSim {rng} random active counter.
Arguments random {rng} s.
Arguments active {rng} s.
Arguments counter {rng} s.

(** [SimulatedScanner.__init__], given the generator that [Random(seed)]
    returns. *)
Definition sim_init {rng : Type} (r : rng) : SimulatedScanner rng :=
  mkSim r [] 0%N.

(** The digits of [format(n, "X")], most significant first. *)
Fixpoint upper_hex (d : Hexadecimal.uint) : string :=
  match d with
  | Hexadecimal.Nil => ""
  | Hexadecimal.D0 d' => String "0"%char (upper_hex d')
  | Hexadecimal.D1 d' => String "1"%char (upper_hex d')
  | Hexadecimal.D2 d' => String "2"%char (upper_hex d')
  | Hexadecimal.D3 d' => String "3"%char (upper_hex d')
  | Hexadecimal.D4 d' => String "4"%char (upper_hex d')
  | Hexadecimal.D5 d' => String "5"%char (upper_hex d')
  | Hexadecimal.D6 d' => String "6"%char (upper_hex d')
  | Hexadecimal.D7 d' => String "7"%char (upper_hex d')
  | Hexadecimal.D8 d' => String "8"%char (upper_hex d')
  | Hexadecimal.D9 d' => String "9"%char (upper_hex d')
  | Hexadecimal.Da d' => String "A"%char (upper_hex d')
  | Hexadecimal.Db d' => String "B"%char (upper_hex d')
  | Hexadecimal.Dc d' => String "C"%char (upper_hex d')
  | Hexadecimal.Dd d' => String "D"%char (upper_hex d')
  | Hexadecimal.De d' => String "E"%char (upper_hex d')
  | Hexadecimal.Df d' => String "F"%char (upper_hex d')
  end.

(** [f"{n:02X}"]: upper-case hexadecimal, padded with zeros to two
    characters. *)
Definition format_02X (n : N) : string :=
  let digits := upper_hex (N.to_hex_uint n) in
  match digits with
  | String c EmptyString => String "0"%char digits
  | _ => digits
  end.

(** The address [_new_mac] returns once it has raised the counter to [n]. *)
Definition mac_of_counter (n : N) : string :=
  String.append "02:00:00:00:00:" (format_02X n).

(** [SimulatedScanner._new_mac] *)
Definition new_mac {rng : Type} (s : SimulatedScanner rng)
  : SimulatedScanner rng * string :=
  let n := (counter s + 1)%N in
  (mkSim (random s) (active s) n, mac_of_counter n).

(** [s[-2:]] *)
Definition last_two (s : string) : string :=
  String.substring (String.length s - 2) 2 s.

(** [self.active[mac] = info]: a new key goes last, an old one keeps its
    place. *)
Fixpoint set_item (mac : string) (info : SimInfo.t)
    (d : list (string * SimInfo.t)) : list (string * SimInfo.t) :=
  match d with
  | [] => [(mac, info)]
  | (k, v) :: rest =>
      if String.eqb k mac then (k, info) :: rest
      else (k, v) :: set_item mac info rest
  end.

(** The first loop of [generate].  It walks a snapshot of the keys and
    reads, updates or deletes the entry under the key in hand only, so it
    goes through the entries in order, each once; the result is the
    generator, the entries left and the observations appended. *)
Fixpoint generate_loop {rng : Type} {G : RandomGen rng} (ts : Z)
    (entries : list (string * SimInfo.t)) (r : rng)
  : rng * list (string * SimInfo.t) * list Observation.t :=
  match entries with
  | [] => (r, [], [])
  | (mac, info) :: rest =>
      let (gone, r1) := random_below 10 r in
      if gone then generate_loop ts rest r1
      else
        let (delta, r2) := randint (-2) 2 r1 in
        let info' := SimInfo.mk (SimInfo.name info) (SimInfo.rssi info + delta) in
        let '(r3, rest', obss) := generate_loop ts rest r2 in
        (r3, (mac, info') :: rest',
         Observation.mk ts mac (SimInfo.name info') "public" (SimInfo.rssi info')
           :: obss)
  end.

(** [SimulatedScanner.generate], with the clock read as [ts]. *)
Definition generate {rng : Type} {G : RandomGen rng} (ts : Z)
    (s : SimulatedScanner rng) : SimulatedScanner rng * list Observation.t :=
  let '(r1, act, obss) := generate_loop ts (active s) (random s) in
  let (add, r2) := random_below 30 r1 in
  if add then
    let (s1, mac) := new_mac (mkSim r2 act (counter s)) in
    let (rssi, r3) := randint (-80) (-40) (random s1) in
    let name := String.append "Sim" (last_two mac) in
    (mkSim r3 (set_item mac (SimInfo.mk name rssi) (active s1)) (counter s1),
     obss ++ [Observation.mk ts mac name "public" rssi])
  else (mkSim r2 act (counter s), obss).

(** [generate] called once per timestamp of [tss], with the observations of
    each call. *)
Fixpoint generates {rng : Type} {G : RandomGen rng} (tss : list Z)
    (s : SimulatedScanner rng)
  : SimulatedScanner rng * list (list Observation.t) :=
  match tss with
  | [] => (s, [])
  | ts :: tss' =>
      let (s1, obss) := generate ts s in
      let (s2, rest) := generates tss' s1 in
      (s2, obss :: rest)
  end.

(** The addresses handed out so far are those of the counters 1 to
    [counter]; the simulator holds each at most once. *)
Definition sim_wf {rng : Type} (s : SimulatedScanner rng) : Prop :=
  NoDup (map fst (active s))
  /\ forall mac, In mac (map fst (active s)) ->
       exists k, (1 <= k <= counter s)%N /\ mac = mac_of_counter k.

(** The observation [generate] appends for an entry of [self.active]. *)
Definition sim_observation (ts : Z) (p : string * SimInfo.t) : Observation.t :=
  Observation.mk ts (fst p) (SimInfo.name (snd p)) "public"
                 (SimInfo.rssi (snd p)).

(** A simulator started on a tape, and the tape of a first call that adds a
    device. *)
Definition sim_tape : list Z := [5; 17; 95; 1; 20; 10].

Definition sim_start : SimulatedScanner (list Z) := sim_init sim_tape.

(** The name [generate] gives the device it adds when [_new_mac] has raised
    the counter to [n]. *)
Definition sim_name (n : N) : string :=
  String.append "Sim" (last_two (mac_of_counter n)).

(** The counters below 256 whose address has 17 characters and whose name
    ends in the two digits of the counter: all of them. *)
Definition short_counter_ok (n : nat) : bool :=
  Nat.eqb (String.length (mac_of_counter (N.of_nat n))) 17
  && String.eqb (sim_name (N.of_nat n))
                (String.append "Sim" (format_02X (N.of_nat n))).

(** A simulator that has added one device and dropped it again. *)
Definition sim_emptied : SimulatedScanner (list Z) :=
  fst (generates [base; base + seconds 1] (sim_init [5; 17; 3; 95; 50; 60])).

(** ** load_config

    The file has been read and parsed: [cfg] is what [yaml.safe_load(f) or
    {}] returned, a mapping with text keys, and the environment is
    [os.environ].  [int] and [float] are Python's; how they read a text is
    left open, [None] standing for their [ValueError].  Text is ASCII. *)

Class PyBuiltins : Type :=
  { pyfloat : Type;
    int_of_str : string -> option Z;
    float_of_str : string -> option pyfloat }.

(** The values [yaml.safe_load] builds, as far as [load_config] tells them
    apart: anything that is not a list, a bool, an int or a float goes
    through its last branch. *)
#[warnings="-register-all"] Inductive yaml {B : PyBuiltins} : Type :=
| YList (items : list yaml)
| YBool (b : bool)
| YInt (z : Z)
| YFloat (x : pyfloat)
| YStr (s : string)
| YNull
| YDict (entries : list (string * yaml)).

Inductive loaded (A : Type) : Type :=
| Loaded (a : A)
| ValueError (text : string).

Arguments Loaded {A} a.
Arguments ValueError {A} text.

Definition upper_ascii (c : ascii) : ascii :=
  let n := N_of_ascii c in
  if ((97 <=? n) && (n <=? 122))%N then ascii_of_N (n - 32) else c.

(** [str.upper] *)
Fixpoint upper (s : string) : string :=
  match s with
  | EmptyString => EmptyString
  | String c s' => String (upper_ascii c) (upper s')
  end.

(** [str.isspace] on one character: tab to carriage return, the four
    separators 28 to 31, and the space. *)
Definition is_space (c : ascii) : bool :=
  let n := N_of_ascii c in
  (((9 <=? n) && (n <=? 13)) || ((28 <=? n) && (n <=? 32)))%N.

Fixpoint lstrip (s : string) : string :=
  match s with
  | EmptyString => EmptyString
  | String c s' => if is_space c then lstrip s' else s
  end.

Fixpoint rstrip (s : string) : string :=
  match s with
  | EmptyString => EmptyString
  | String c s' =>
      match rstrip s' with
      | EmptyString => if is_space c then EmptyString else String c EmptyString
      | r => String c r
      end
  end.

(** [str.strip()] *)
Definition strip (s : string) : string := rstrip (lstrip s).

(** [value.split(",")] *)
Fixpoint split_comma (s : string) : list string :=
  match s with
  | EmptyString => [EmptyString]
  | String c s' =>
      if Ascii.eqb c ","%char then EmptyString :: split_comma s'
      else
        match split_comma s' with
        | piece :: pieces => String c piece :: pieces
        | [] => [String c EmptyString]
        end
  end.

Definition nonempty (s : string) : bool :=
  match s with EmptyString => false | String _ _ => true end.

(** [[v.strip() for v in value.split(",") if v.strip()]] *)
Definition env_list (value : string) : list string :=
  filter nonempty (map strip (split_comma value)).

(** The value [load_config] stores under a key whose variable is set to
    [value], given the value [old] the file had there. *)
Definition override {B : PyBuiltins} (old : yaml) (value : string)
  : loaded yaml :=
  match old with
  | YList _ => Loaded (YList (map YStr (env_list value)))
  | YBool _ => Loaded (YBool (nonempty value))
  | YInt _ =>
      match int_of_str value with
      | Some z => Loaded (YInt z)
      | None => ValueError value
      end
  | YFloat _ =>
      match float_of_str value with
      | Some x => Loaded (YFloat x)
      | None => ValueError value
      end
  | _ => Loaded (YStr value)
  end.

(** The loop of [load_config].  Each key is visited once and only the
    value under that key is replaced, so the loop goes through the entries
    in order. *)
Fixpoint load_config {B : PyBuiltins} (environ : string -> option string)
    (cfg : list (string * yaml)) : loaded (list (string * yaml)) :=
  match cfg with
  | [] => Loaded []
  | (key, old) :: rest =>
      let entry :=
        match environ (upper key) with
        | Some value => override old value
        | None => Loaded old
        end in
      match entry with
      | ValueError text => ValueError text
      | Loaded v =>
          match load_config environ rest with
          | ValueError text => ValueError text
          | Loaded rest' => Loaded ((key, v) :: rest')
          end
      end
  end.

(** Whether a text contains a comma. *)
Fixpoint has_comma (s : string) : bool :=
  match s with
  | EmptyString => false
  | String c s' => Ascii.eqb c ","%char || has_comma s'
  end.

(** The kind of a value, as the [isinstance] tests of [load_config] see
    it. *)
Inductive kind : Type := KList | KBool | KInt | KFloat | KOther.

Definition kind_of {B : PyBuiltins} (v : yaml) : kind :=
  match v with
  | YList _ => KList
  | YBool _ => KBool
  | YInt _ => KInt
  | YFloat _ => KFloat
  | _ => KOther
  end.

(** Whether the variable of an entry is set to a text that [int] or
    [float], whichever the entry calls for, does not read. *)
Definition unreadable {B : PyBuiltins} (environ : string -> option string)
    (p : string * yaml) : bool :=
  match environ (upper (fst p)), snd p with
  | Some value, YInt _ => negb (is_some (int_of_str value))
  | Some value, YFloat _ => negb (is_some (float_of_str value))
  | _, _ => false
  end.

(** Builtins for trying things out: both conversions read the text ["7"]
    and nothing else. *)
#[export] Instance seven_only : PyBuiltins :=
  {| pyfloat := Z;
     int_of_str := fun s => if String.eqb s "7" then Some 7 else None;
     float_of_str := fun s => if String.eqb s "7" then Some 7 else None |}.

Definition sample_cfg : list (string * yaml) :=
  [("exclude_mac_prefixes", YList [YStr "aa:bb"]);
   ("grace_seconds", YInt 10);
   ("simulate", YBool true);
   ("adapter", YStr "hci0")].

Definition sample_environ (name : string) : option string :=
  if String.eqb name "EXCLUDE_MAC_PREFIXES" then Some " 0c:11 ,, AA , "
  else if String.eqb name "GRACE_SECONDS" then Some "7"
  else if String.eqb name "SIMULATE" then Some "false"
  else None.

(** * Properties *)

(** ** The scenarios of [tests/test_tracker.py] *)

Example test_new_and_lost :
  let t0 := init 10 20 in
  let (t1, r1) := scan [obs_test] t0 in
  let (t2, r2) := scan [obs_test] t1 in
  let (t3, r3) := check_lost (base + seconds 11) t2 in
  r1 = Ok []
  /\ r2 = Ok [Event.mk NEW "AA:BB:CC:DD:EE:01" "Test" (-50)]
  /\ r3 = Ok [Event.mk LOST "AA:BB:CC:DD:EE:01" "Test" (-50)]
  /\ devices t3 = [].
Proof. vm_compute. repeat split. Qed.

Example test_weak_signal_grace :
  let t0 := init 10 20 in
  let (t1, _) := scan [obs_weak] t0 in
  let (t2, _) := scan [obs_weak] t1 in
  let (t3, r3) := check_lost (base + seconds 11) t2 in
  let (t4, r4) := check_lost (base + seconds 21) t3 in
  r3 = Ok []
  /\ r4 = Ok [Event.mk LOST "AA:BB:CC:DD:EE:02" "Weak" (-95)].
Proof. vm_compute. repeat split. Qed.

Example test_no_duplicate_new_when_device_briefly_missing :
  let obs1 := Observation.mk base "AA:BB:CC:DD:EE:03" "Test" "public" (-50) in
  let obs2 :=
    Observation.mk (base + seconds 2) "AA:BB:CC:DD:EE:03" "Test" "public" (-50) in
  let t0 := init 10 20 in
  let (t1, r1) := scan [obs1] t0 in
  let (t2, r2) := scan [obs1] t1 in
  let (t3, r3) := scan [] t2 in
  let (t4, r4) := check_lost (base + seconds 1) t3 in
  let (t5, r5) := scan [obs2] t4 in
  r1 = Ok []
  /\ r2 = Ok [Event.mk NEW "AA:BB:CC:DD:EE:03" "Test" (-50)]
  /\ r3 = Ok [] /\ r4 = Ok [] /\ r5 = Ok [].
Proof. vm_compute. repeat split. Qed.

(** ** Properties of the dict operations *)

Ltac eqb_cases k1 k2 :=
  destruct (String.eqb_spec k1 k2); subst; simpl; try congruence.

Lemma lookup_None_iff (k : string) (d : dict) :
  lookup k d = None <-> ~ In k (keys d).
Proof.
  induction d as [|[k' v] d IH]; simpl.
  - tauto.
  - eqb_cases k' k.
    + split; [discriminate | intros H; exfalso; apply H; now left].
    + rewrite IH. intuition.
Qed.

Lemma lookup_Some_In (k : string) (d : dict) (v : Info.t) :
  lookup k d = Some v -> In (k, v) d.
Proof.
  induction d as [|[k' v'] d IH]; simpl; [discriminate|].
  eqb_cases k' k.
  - intros [= ->]. now left.
  - intros H. right. now apply IH.
Qed.

Lemma lookup_app (k : string) (d1 d2 : dict) :
  lookup k (d1 ++ d2) =
  match lookup k d1 with Some v => Some v | None => lookup k d2 end.
Proof.
  induction d1 as [|[k' v] d1 IH]; simpl; [reflexivity|].
  now eqb_cases k' k.
Qed.

Lemma keys_alter (f : Info.t -> Info.t) (k : string) (d : dict) :
  keys (alter f k d) = keys d.
Proof.
  induction d as [|[k' v] d IH]; simpl; [reflexivity|].
  now eqb_cases k' k.
Qed.

Lemma lookup_alter_eq (f : Info.t -> Info.t) (k : string) (d : dict) :
  lookup k (alter f k d) = option_map f (lookup k d).
Proof.
  induction d as [|[k' v] d IH]; simpl; [reflexivity|].
  eqb_cases k' k.
  - now rewrite String.eqb_refl.
  - destruct (String.eqb_spec k' k); congruence.
Qed.

Lemma lookup_alter_ne (f : Info.t -> Info.t) (k k' : string) (d : dict) :
  k <> k' -> lookup k' (alter f k d) = lookup k' d.
Proof.
  intros Hne. induction d as [|[k0 v] d IH]; simpl; [reflexivity|].
  eqb_cases k0 k.
  - destruct (String.eqb_spec k k'); congruence.
  - now rewrite IH.
Qed.

Lemma del_app_cons (k : string) (v : Info.t) (d1 d2 : dict) :
  ~ In k (keys d1) -> del k (d1 ++ (k, v) :: d2) = d1 ++ d2.
Proof.
  induction d1 as [|[k' v'] d1 IH]; simpl; intros H.
  - now rewrite String.eqb_refl.
  - eqb_cases k' k.
    + exfalso. apply H. now left.
    + rewrite IH; [reflexivity | intuition].
Qed.

Lemma keys_app (d1 d2 : dict) : keys (d1 ++ d2) = keys d1 ++ keys d2.
Proof. apply map_app. Qed.

(** ** What [update] does to the dict *)

Lemma refresh_refresh (o o' : Observation.t) (i : Info.t) :
  refresh o' (refresh o i) = refresh o' i.
Proof. reflexivity. Qed.

Lemma refresh_fresh (o o' : Observation.t) :
  refresh o' (fresh_info o) = refresh o' (fresh_info o').
Proof. reflexivity. Qed.

Lemma lookup_update_dict_eq (obs : Observation.t) (d : dict) :
  lookup (Observation.mac obs) (update_dict obs d) =
  Some (updated obs (lookup (Observation.mac obs) d)).
Proof.
  unfold update_dict, setdefault, updated. rewrite lookup_alter_eq.
  destruct (lookup (Observation.mac obs) d) as [i|] eqn:E.
  - now rewrite E.
  - rewrite lookup_app, E. simpl. now rewrite String.eqb_refl.
Qed.

Lemma lookup_update_dict_ne (obs : Observation.t) (k : string) (d : dict) :
  Observation.mac obs <> k -> lookup k (update_dict obs d) = lookup k d.
Proof.
  intros Hne. unfold update_dict, setdefault.
  rewrite lookup_alter_ne by assumption.
  destruct (lookup (Observation.mac obs) d); [reflexivity|].
  rewrite lookup_app. destruct (lookup k d); [reflexivity|]. simpl.
  destruct (String.eqb_spec (Observation.mac obs) k); congruence.
Qed.

Lemma keys_update_dict (obs : Observation.t) (d : dict) :
  keys (update_dict obs d) =
  match lookup (Observation.mac obs) d with
  | Some _ => keys d
  | None => keys d ++ [Observation.mac obs]
  end.
Proof.
  unfold update_dict, setdefault. rewrite keys_alter.
  destruct (lookup (Observation.mac obs) d); [reflexivity|].
  now rewrite keys_app.
Qed.

(** ** What the two loops compute when nothing is raised *)

Lemma finalize_loop_ok (d : dict) :
  Forall has_seen d ->
  finalize_loop d = (map fin_info d, Ok (flat_map fin_events d)).
Proof.
  induction 1 as [|[k i] d Hs _ IH]; simpl; [reflexivity|].
  rewrite IH. unfold fin_info, fin_events, has_seen in *. simpl in *.
  destruct (finalize_one k i) as [[i' evs]|e] eqn:E; [reflexivity|].
  exfalso. unfold finalize_one in E.
  destruct (Info.seen i) as [[|]|]; try congruence.
  destruct (_ && _); discriminate.
Qed.

Lemma check_lost_loop_ok (g wg : Z) (now : Z) (suf : dict) :
  forall pre : dict,
    NoDup (keys (pre ++ suf)) ->
    check_lost_loop g wg now (keys suf) (pre ++ suf) =
    (pre ++ filter (stays g wg now) suf,
     Ok (flat_map (lost_events g wg now) suf)).
Proof.
  induction suf as [|[k i] suf IH]; intros pre Hnd; simpl.
  - now rewrite app_nil_r.
  - assert (Hk : ~ In k (keys pre)).
    { rewrite keys_app in Hnd. simpl in Hnd.
      apply NoDup_remove_2 in Hnd. rewrite in_app_iff in Hnd. tauto. }
    rewrite lookup_app. apply lookup_None_iff in Hk as Hl. rewrite Hl.
    simpl. rewrite String.eqb_refl.
    unfold stays, lost_events. simpl.
    destruct (judge g wg now k i) as [| |e] eqn:J.
    + replace (pre ++ (k, i) :: suf) with ((pre ++ [(k, i)]) ++ suf)
        by now rewrite <- app_assoc.
      rewrite IH by now rewrite <- app_assoc.
      now rewrite <- app_assoc.
    + replace (pre ++ (k, i) :: suf) with ((pre ++ [(k, i)]) ++ suf)
        by now rewrite <- app_assoc.
      rewrite IH by now rewrite <- app_assoc.
      now rewrite <- app_assoc.
    + rewrite del_app_cons by assumption.
      rewrite IH; [reflexivity|].
      rewrite keys_app in *. simpl in Hnd. now apply NoDup_remove_1 in Hnd.
Qed.

(** ** Well-formed trackers

    One binding per key, as in any Python dict, and both late keys present
    in every record. *)

Lemma nodupb_NoDup (l : list string) : nodupb l = true -> NoDup l.
Proof.
  induction l as [|k l IH]; simpl; intros H; constructor;
    apply andb_prop in H as [H1 H2]; [|now apply IH].
  intros Hin. apply negb_true_iff in H1.
  assert (existsb (String.eqb k) l = true); [|congruence].
  apply existsb_exists. exists k. split; [assumption | apply String.eqb_refl].
Qed.

Lemma wfb_wf (t : DeviceTracker) : wfb t = true -> wf t.
Proof.
  unfold wfb, wf, wf_dict. intros H. apply andb_prop in H as [H1 H2]. split.
  - now apply nodupb_NoDup.
  - apply Forall_forall. intros p Hp.
    rewrite forallb_forall in H2. specialize (H2 p Hp).
    unfold completeb in H2. apply andb_prop in H2 as [H3 H4].
    unfold complete.
    destruct (Info.last_seen (snd p)), (Info.seen (snd p)); simpl in *;
      split; congruence.
Qed.

Lemma wf_has_seen (d : dict) : wf_dict d -> Forall has_seen d.
Proof.
  intros [_ H]. eapply Forall_impl; [|exact H].
  intros p [_ Hs]. exact Hs.
Qed.

(** ** Maps and filters over the dict, seen from one key *)

Section PerKey.
Variable g : string * Info.t -> string * Info.t.
Hypothesis g_fst : forall p, fst (g p) = fst p.

Lemma keys_map (d : dict) : keys (map g d) = keys d.
Proof.
  unfold keys. rewrite map_map. apply map_ext. exact g_fst.
Qed.

Lemma lookup_map (a : string) (d : dict) :
  lookup a (map g d) = option_map (fun i => snd (g (a, i))) (lookup a d).
Proof.
  induction d as [|[k v] d IH]; simpl; [reflexivity|].
  destruct (g (k, v)) as [k' v'] eqn:E.
  pose proof (g_fst (k, v)) as G. rewrite E in G. simpl in G. subst k'.
  eqb_cases k a. now rewrite E.
Qed.
End PerKey.

Lemma lookup_filter (P : string * Info.t -> bool) (a : string) (d : dict) :
  NoDup (keys d) ->
  lookup a (filter P d) =
  match lookup a d with
  | Some i => if P (a, i) then Some i else None
  | None => None
  end.
Proof.
  induction d as [|[k v] d IH]; simpl; [reflexivity|].
  intros Hnd. inversion Hnd as [|? ? Hk Hnd']; subst.
  specialize (IH Hnd').
  destruct (P (k, v)) eqn:EP; simpl; eqb_cases k a.
  - now rewrite EP.
  - rewrite EP, IH. apply lookup_None_iff in Hk. now rewrite Hk.
Qed.

Lemma keys_filter_incl (P : string * Info.t -> bool) (d : dict) (k : string) :
  In k (keys (filter P d)) -> In k (keys d).
Proof.
  unfold keys. rewrite !in_map_iff. intros [p [H1 H2]].
  apply filter_In in H2 as [H2 _]. now exists p.
Qed.

Lemma NoDup_keys_filter (P : string * Info.t -> bool) (d : dict) :
  NoDup (keys d) -> NoDup (keys (filter P d)).
Proof.
  induction d as [|[k v] d IH]; simpl; [trivial|].
  intros Hnd. inversion Hnd as [|? ? Hk Hnd']; subst.
  destruct (P (k, v)); simpl; [|now apply IH].
  constructor; [|now apply IH].
  intros H. apply Hk. eapply keys_filter_incl. exact H.
Qed.

(** ** Events about one address *)

Lemma events_for_app (a : string) (l1 l2 : list Event.t) :
  events_for a (l1 ++ l2) = events_for a l1 ++ events_for a l2.
Proof. apply filter_app. Qed.

Lemma events_for_all (a : string) (evs : list Event.t) :
  (forall e, In e evs -> Event.mac e = a) -> events_for a evs = evs.
Proof.
  induction evs as [|e evs IH]; simpl; intros H; [reflexivity|].
  unfold for_mac. rewrite (H e) by now left.
  rewrite String.eqb_refl. f_equal. apply IH. intros e' He'. apply H. now right.
Qed.

Lemma events_for_none (a : string) (evs : list Event.t) :
  (forall e, In e evs -> Event.mac e <> a) -> events_for a evs = [].
Proof.
  induction evs as [|e evs IH]; simpl; intros H; [reflexivity|].
  unfold for_mac. destruct (String.eqb_spec (Event.mac e) a) as [E|E].
  - exfalso. apply (H e); [now left | exact E].
  - apply IH. intros e' He'. apply H. now right.
Qed.

Section EventsPerKey.
Variable f : string * Info.t -> list Event.t.
Hypothesis f_mac : forall p e, In e (f p) -> Event.mac e = fst p.

Lemma events_for_flat_map (a : string) (d : dict) :
  NoDup (keys d) ->
  events_for a (flat_map f d) =
  match lookup a d with Some i => f (a, i) | None => [] end.
Proof.
  induction d as [|[k v] d IH]; simpl; [reflexivity|].
  intros Hnd. inversion Hnd as [|? ? Hk Hnd']; subst.
  rewrite events_for_app, (IH Hnd').
  eqb_cases k a.
  - apply lookup_None_iff in Hk. rewrite Hk, app_nil_r.
    apply events_for_all. intros e He. now apply f_mac in He.
  - rewrite events_for_none; [reflexivity|].
    intros e He. apply f_mac in He. simpl in He. congruence.
Qed.
End EventsPerKey.

Lemma fin_info_fst (p : string * Info.t) : fst (fin_info p) = fst p.
Proof.
  unfold fin_info. now destruct (finalize_one (fst p) (snd p)) as [[? ?]|?].
Qed.

Lemma fin_events_mac (p : string * Info.t) (e : Event.t) :
  In e (fin_events p) -> Event.mac e = fst p.
Proof.
  unfold fin_events, finalize_one.
  destruct (Info.seen (snd p)) as [[|]|]; simpl; try tauto.
  destruct (_ && _); simpl; [|tauto].
  intros [<-|[]]. reflexivity.
Qed.

Lemma lost_events_mac (g wg : Z) (now : Z) (p : string * Info.t)
    (e : Event.t) :
  In e (lost_events g wg now p) -> Event.mac e = fst p.
Proof.
  unfold lost_events, judge.
  destruct (Info.last_seen (snd p)); simpl; [|tauto].
  destruct (total_seconds_gt _ _); simpl; [|tauto].
  intros [<-|[]]. reflexivity.
Qed.

(** ** The four methods on well-formed trackers *)

Lemma finalize_scan_ok (t : DeviceTracker) :
  wf t ->
  finalize_scan t =
  (with_devices (map fin_info (devices t)) t,
   Ok (flat_map fin_events (devices t))).
Proof.
  intros H. unfold finalize_scan.
  now rewrite (finalize_loop_ok _ (wf_has_seen _ H)).
Qed.

Lemma check_lost_ok (now : Z) (t : DeviceTracker) :
  wf t ->
  check_lost now t =
  (with_devices (filter (stays (grace t) (weak_grace t) now) (devices t)) t,
   Ok (flat_map (lost_events (grace t) (weak_grace t) now) (devices t))).
Proof.
  intros [Hnd _]. unfold check_lost.
  pose proof (check_lost_loop_ok (grace t) (weak_grace t) now (devices t) []
                Hnd) as H.
  simpl in H. now rewrite H.
Qed.

Lemma wf_init (g wg : Z) : wf (init g wg).
Proof. split; simpl; constructor. Qed.

Lemma wf_new_scan (t : DeviceTracker) : wf t -> wf (new_scan t).
Proof.
  intros [Hnd Hc]. split; simpl.
  - now rewrite keys_map.
  - apply Forall_map. eapply Forall_impl; [|exact Hc].
    intros p [H1 _]. split; simpl; [exact H1 | discriminate].
Qed.

Lemma alter_app_absent (f : Info.t -> Info.t) (k : string) (v : Info.t)
    (d : dict) :
  lookup k d = None -> alter f k (d ++ [(k, v)]) = d ++ [(k, f v)].
Proof.
  induction d as [|[k' v'] d IH]; simpl.
  - now rewrite String.eqb_refl.
  - eqb_cases k' k. intros H. now rewrite IH.
Qed.

Lemma Forall_alter (P : string * Info.t -> Prop) (f : Info.t -> Info.t)
    (k : string) (d : dict) :
  Forall P d -> (forall v, P (k, f v)) -> Forall P (alter f k d).
Proof.
  intros H Hf. induction H as [|[k' v] d Hp Hd IH]; simpl; [constructor|].
  eqb_cases k' k; constructor; auto.
Qed.

Lemma update_dict_cases (obs : Observation.t) (d : dict) :
  update_dict obs d =
  match lookup (Observation.mac obs) d with
  | Some _ => alter (refresh obs) (Observation.mac obs) d
  | None => d ++ [(Observation.mac obs, refresh obs (fresh_info obs))]
  end.
Proof.
  unfold update_dict, setdefault.
  destruct (lookup (Observation.mac obs) d) eqn:E; [reflexivity|].
  now apply alter_app_absent.
Qed.

Lemma wf_update (obs : Observation.t) (t : DeviceTracker) :
  wf t -> wf (update obs t).
Proof.
  intros [Hnd Hc]. split; simpl.
  - rewrite keys_update_dict.
    destruct (lookup (Observation.mac obs) (devices t)) eqn:E; [assumption|].
    apply lookup_None_iff in E.
    apply NoDup_app; [assumption | repeat constructor; simpl; tauto |].
    intros x Hx [<-|[]]. contradiction.
  - rewrite update_dict_cases.
    destruct (lookup (Observation.mac obs) (devices t)).
    + apply Forall_alter; [assumption|].
      intros v. split; simpl; discriminate.
    + apply Forall_app. split; [assumption|].
      repeat constructor; simpl; discriminate.
Qed.

Lemma complete_fin_info (p : string * Info.t) :
  complete (snd p) -> complete (snd (fin_info p)).
Proof.
  unfold fin_info, finalize_one, complete. destruct p as [k i]. simpl.
  destruct (Info.seen i) as [[|]|] eqn:E; simpl; try tauto.
  - destruct (_ && _); simpl; rewrite E; tauto.
  - rewrite E. tauto.
Qed.

Lemma wf_dict_fin (d : dict) : wf_dict d -> wf_dict (map fin_info d).
Proof.
  intros [Hnd Hc]. split.
  - now rewrite (keys_map _ fin_info_fst).
  - apply Forall_map. eapply Forall_impl; [|exact Hc].
    intros p. apply complete_fin_info.
Qed.

Lemma wf_dict_filter (P : string * Info.t -> bool) (d : dict) :
  wf_dict d -> wf_dict (filter P d).
Proof.
  intros [Hnd Hc]. split.
  - now apply NoDup_keys_filter.
  - rewrite Forall_forall in *. intros p Hp.
    apply filter_In in Hp as [Hp _]. now apply Hc.
Qed.

(** ** One address at a time

    What a call does to the record of one address, and the events it
    returns about that address, depends on that record alone. *)

Lemma exec_local (g wg : Z) (o : op) (d : dict) :
  wf_dict d ->
  exists d' evs,
    exec o (mkTracker d g wg) = (mkTracker d' g wg, Ok evs)
    /\ wf_dict d'
    /\ forall a,
        lookup a d' = fst (step_record g wg a o (lookup a d))
        /\ events_for a evs = snd (step_record g wg a o (lookup a d)).
Proof.
  intros Hwf. destruct o as [|obs| |now]; simpl.
  - eexists _, _. split; [reflexivity|].
    split; [exact (wf_new_scan (mkTracker d g wg) Hwf)|].
    intros a. split; [|reflexivity]. now apply lookup_map.
  - eexists _, _. split; [reflexivity|].
    split; [exact (wf_update obs (mkTracker d g wg) Hwf)|].
    intros a. split.
    + destruct (String.eqb_spec (Observation.mac obs) a) as [<-|Hne]; simpl.
      * apply lookup_update_dict_eq.
      * now apply lookup_update_dict_ne.
    + now destruct (String.eqb (Observation.mac obs) a).
  - rewrite (finalize_scan_ok (mkTracker d g wg) Hwf). simpl.
    eexists _, _. split; [reflexivity|].
    split; [now apply wf_dict_fin|].
    intros a. split.
    + rewrite (lookup_map _ fin_info_fst). now destruct (lookup a d).
    + rewrite (events_for_flat_map _ fin_events_mac) by apply Hwf.
      now destruct (lookup a d).
  - rewrite (check_lost_ok now (mkTracker d g wg) Hwf). simpl.
    eexists _, _. split; [reflexivity|].
    split; [now apply wf_dict_filter|].
    intros a. split.
    + rewrite lookup_filter by apply Hwf. unfold stays. simpl.
      destruct (lookup a d) as [i|]; [|reflexivity].
      now destruct (judge g wg now a i).
    + rewrite (events_for_flat_map _ (lost_events_mac g wg now)) by apply Hwf.
      unfold lost_events. simpl.
      destruct (lookup a d) as [i|]; [|reflexivity].
      now destruct (judge g wg now a i).
Qed.

Lemma run_local (g wg : Z) (ops : list op) :
  forall d : dict,
    wf_dict d ->
    exists d' evs,
      run ops (mkTracker d g wg) = (mkTracker d' g wg, Ok evs)
      /\ wf_dict d'
      /\ forall a,
          lookup a d' = fst (steps_record g wg a ops (lookup a d))
          /\ events_for a evs = snd (steps_record g wg a ops (lookup a d)).
Proof.
  induction ops as [|o ops IH]; intros d Hwf; simpl.
  - exists d, []. auto.
  - destruct (exec_local g wg o d Hwf) as (d1 & evs1 & E1 & Hwf1 & L1).
    destruct (IH d1 Hwf1) as (d2 & evs2 & E2 & Hwf2 & L2).
    rewrite E1, E2. exists d2, (evs1 ++ evs2).
    split; [reflexivity|]. split; [assumption|].
    intros a. destruct (L1 a) as [La Lb]. destruct (L2 a) as [Lc Ld].
    rewrite La in Lc, Ld.
    destruct (step_record g wg a o (lookup a d)) as [r1 e1].
    simpl in *.
    destruct (steps_record g wg a ops r1) as [r2 e2]. simpl in *.
    rewrite events_for_app. split; congruence.
Qed.

Lemma steps_record_app (g wg : Z) (a : string) (ops1 ops2 : list op)
    (r : option Info.t) :
  steps_record g wg a (ops1 ++ ops2) r =
  let (r1, evs1) := steps_record g wg a ops1 r in
  let (r2, evs2) := steps_record g wg a ops2 r1 in
  (r2, evs1 ++ evs2).
Proof.
  revert r. induction ops1 as [|o ops1 IH]; intros r; simpl.
  - now destruct (steps_record g wg a ops2 r).
  - destruct (step_record g wg a o r) as [r1 e1]. rewrite IH.
    destruct (steps_record g wg a ops1 r1) as [r2 e2].
    destruct (steps_record g wg a ops2 r2) as [r3 e3].
    now rewrite app_assoc.
Qed.

Lemma run_updates (obss : list Observation.t) (rest : list op) :
  forall t, run (map Update obss ++ rest) t = run rest (updates obss t).
Proof.
  induction obss as [|o obss IH]; intros t; simpl; [reflexivity|].
  rewrite IH. unfold updates. simpl.
  destruct (run rest _) as [t2 [evs|e]]; reflexivity.
Qed.

Lemma run_scan_ops (obss : list Observation.t) (t : DeviceTracker) :
  run (scan_ops obss) t = scan obss t.
Proof.
  unfold scan_ops, scan. simpl. rewrite run_updates. simpl.
  destruct (finalize_scan _) as [t1 [evs|e]]; [|reflexivity].
  now rewrite app_nil_r.
Qed.

Lemma steps_updates (g wg : Z) (a : string) (obss : list Observation.t) :
  forall r,
    steps_record g wg a (map Update obss) r = (observe_all a obss r, []).
Proof.
  unfold observe_all.
  induction obss as [|o obss IH]; intros r; simpl; [reflexivity|].
  destruct (String.eqb (Observation.mac o) a); rewrite IH;
    destruct (last_obs a obss); try reflexivity.
  now destruct r.
Qed.

Lemma last_obs_None (a : string) (obss : list Observation.t) :
  last_obs a obss = None <-> ~ In a (map Observation.mac obss).
Proof.
  induction obss as [|o obss IH]; simpl; [tauto|].
  destruct (last_obs a obss) as [o'|].
  - split; [discriminate|]. intros H. exfalso. apply H. right.
    destruct IH as [_ IH].
    destruct (in_dec string_dec a (map Observation.mac obss)) as [Hin|Hn];
      [assumption | now apply IH in Hn].
  - destruct (String.eqb_spec (Observation.mac o) a).
    + split; [discriminate|]. intros H. exfalso. apply H. now left.
    + split; [|reflexivity]. intros _ [H|H]; [congruence|].
      now apply IH in H.
Qed.

Lemma steps_scan_ops (g wg : Z) (a : string) (obss : list Observation.t)
    (r : option Info.t) :
  steps_record g wg a (scan_ops obss) r = scan_record a obss r.
Proof.
  unfold scan_ops, scan_record.
  cbn [steps_record step_record].
  rewrite steps_record_app, steps_updates.
  cbn [steps_record step_record].
  destruct (observe_all a obss _) as [i|]; simpl; [|reflexivity].
  now rewrite app_nil_r.
Qed.

Lemma scan_local (obss : list Observation.t) (t : DeviceTracker) :
  wf t ->
  exists t' evs,
    scan obss t = (t', Ok evs)
    /\ wf t'
    /\ grace t' = grace t /\ weak_grace t' = weak_grace t
    /\ forall a,
        lookup a (devices t') = fst (scan_record a obss (lookup a (devices t)))
        /\ events_for a evs = snd (scan_record a obss (lookup a (devices t))).
Proof.
  destruct t as [d g wg]. intros Hwf.
  destruct (run_local g wg (scan_ops obss) d Hwf) as (d' & evs & E & Hwf' & L).
  rewrite run_scan_ops in E.
  exists (mkTracker d' g wg), evs. do 4 (split; [easy|]). intros a. split.
  - destruct (L a) as [La _]. now rewrite steps_scan_ops in La.
  - destruct (L a) as [_ Lb]. now rewrite steps_scan_ops in Lb.
Qed.

Lemma exec_ok (o : op) (t : DeviceTracker) :
  wf t ->
  exists t' evs,
    exec o t = (t', Ok evs)
    /\ wf t'
    /\ grace t' = grace t /\ weak_grace t' = weak_grace t
    /\ forall a,
        lookup a (devices t') =
          fst (step_record (grace t) (weak_grace t) a o (lookup a (devices t)))
        /\ events_for a evs =
          snd (step_record (grace t) (weak_grace t) a o (lookup a (devices t))).
Proof.
  destruct t as [d g wg]. intros Hwf.
  destruct (exec_local g wg o d Hwf) as (d' & evs & E & Hwf' & L).
  exists (mkTracker d' g wg), evs. auto.
Qed.

Lemma run_ok (ops : list op) (t : DeviceTracker) :
  wf t ->
  exists t' evs,
    run ops t = (t', Ok evs)
    /\ wf t'
    /\ grace t' = grace t /\ weak_grace t' = weak_grace t
    /\ forall a,
        lookup a (devices t') =
          fst (steps_record (grace t) (weak_grace t) a ops (lookup a (devices t)))
        /\ events_for a evs =
          snd (steps_record (grace t) (weak_grace t) a ops (lookup a (devices t))).
Proof.
  destruct t as [d g wg]. intros Hwf.
  destruct (run_local g wg ops d Hwf) as (d' & evs & E & Hwf' & L).
  exists (mkTracker d' g wg), evs. auto.
Qed.

Lemma In_events_for (a : string) (e : Event.t) (evs : list Event.t) :
  In e (events_for a evs) <-> In e evs /\ Event.mac e = a.
Proof.
  unfold events_for, for_mac. rewrite filter_In.
  now rewrite String.eqb_eq.
Qed.

(** ** Confirmation *)

(** A confirmed record stays confirmed, and silent, until [check_lost]
    reports it lost. *)
Lemma confirmed_steps (g wg : Z) (a : string) (ops : list op) :
  forall i,
    Info.active i = true ->
    (forall e, In e (snd (steps_record g wg a ops (Some i))) ->
               Event.type e <> LOST) ->
    snd (steps_record g wg a ops (Some i)) = []
    /\ exists i', fst (steps_record g wg a ops (Some i)) = Some i'
                  /\ Info.active i' = true.
Proof.
  induction ops as [|o ops IH]; intros i Hact Hno; simpl in *.
  - eauto.
  - destruct (step_record g wg a o (Some i)) as [r1 e1] eqn:S1.
    assert (H1 : (e1 = [] /\ exists i1, r1 = Some i1 /\ Info.active i1 = true)
                 \/ (exists e, In e e1 /\ Event.type e = LOST)).
    { destruct o as [|obs| |now]; simpl in S1.
      - injection S1 as <- <-. left. eauto.
      - destruct (String.eqb (Observation.mac obs) a);
          injection S1 as <- <-; left; eauto.
      - injection S1 as <- <-. left.
        unfold fin_info, fin_events, finalize_one. simpl.
        destruct (Info.seen i) as [[|]|]; simpl; rewrite ?Hact; simpl; eauto.
      - unfold judge in S1. destruct (Info.last_seen i) as [last|].
        + destruct (total_seconds_gt _ _); injection S1 as <- <-.
          * right. eexists. split; [now left | reflexivity].
          * left. eauto.
        + injection S1 as <- <-. left. eauto. }
    destruct (steps_record g wg a ops r1) as [r2 e2] eqn:S2. simpl in *.
    destruct H1 as [[-> (i1 & -> & Hact1)]|(e & He & Hty)].
    + specialize (IH i1 Hact1). rewrite S2 in IH. simpl in *. now apply IH.
    + exfalso. apply (Hno e); [apply in_or_app; now left | assumption].
Qed.

(** C1 (confirmation): an address with no record, observed in two
    consecutive scans ([new_scan], the [update]s, [finalize_scan]), gets no
    NEW event from the first [finalize_scan] and exactly one from the second,
    carrying the address and the name and signal strength of its last
    observation.  After that, whatever is called, no further event about the
    address is returned, and its record stays confirmed, for as long as
    [check_lost] has not reported it lost. *)
Theorem confirmation_on_second_scan
    (t : DeviceTracker) (a : string) (obss1 obss2 : list Observation.t)
    (o2 : Observation.t) :
  wf t ->
  lookup a (devices t) = None ->
  In a (map Observation.mac obss1) ->
  last_obs a obss2 = Some o2 ->
  exists t1 evs1 t2 evs2,
    scan obss1 t = (t1, Ok evs1)
    /\ events_for a evs1 = []
    /\ scan obss2 t1 = (t2, Ok evs2)
    /\ events_for a evs2 =
         [Event.mk NEW a (Observation.name o2) (Observation.rssi o2)]
    /\ forall ops, exists t3 evs3,
         run ops t2 = (t3, Ok evs3)
         /\ ((forall e, In e evs3 -> Event.mac e = a -> Event.type e <> LOST) ->
             events_for a evs3 = []
             /\ exists i, lookup a (devices t3) = Some i
                          /\ Info.active i = true).
Proof.
  intros Hwf Hnone Hin1 Hlast2.
  destruct (last_obs a obss1) as [o1|] eqn:Hlast1;
    [|now apply last_obs_None in Hlast1].
  destruct (scan_local obss1 t Hwf) as (t1 & evs1 & E1 & Hwf1 & _ & _ & L1).
  destruct (scan_local obss2 t1 Hwf1) as (t2 & evs2 & E2 & Hwf2 & _ & _ & L2).
  destruct (L1 a) as [R1 V1]. destruct (L2 a) as [R2 V2].
  rewrite Hnone in R1, V1. unfold scan_record, observe_all in R1, V1.
  simpl in R1, V1. rewrite Hlast1 in R1, V1. simpl in R1, V1.
  rewrite R1 in R2, V2. unfold scan_record, observe_all in R2, V2.
  rewrite Hlast2 in R2, V2. simpl in R2, V2.
  exists t1, evs1, t2, evs2. do 4 (split; [assumption|]).
  intros ops.
  destruct (run_ok ops t2 Hwf2) as (t3 & evs3 & E3 & _ & _ & _ & L3).
  exists t3, evs3. split; [assumption|]. intros Hno.
  destruct (L3 a) as [R3 V3]. rewrite R2 in R3, V3.
  rewrite R3, V3. apply confirmed_steps; [reflexivity|].
  rewrite <- V3. intros e He. apply In_events_for in He as [He1 He2].
  now apply Hno.
Qed.

Lemma confirmation_on_second_scan_witness :
  wf (init 10 20)
  /\ lookup "AA:BB:CC:DD:EE:01" (devices (init 10 20)) = None
  /\ In "AA:BB:CC:DD:EE:01" (map Observation.mac [obs_test])
  /\ last_obs "AA:BB:CC:DD:EE:01" [obs_test] = Some obs_test
  /\ exists t1 evs1 t2 evs2,
      scan [obs_test] (init 10 20) = (t1, Ok evs1)
      /\ events_for "AA:BB:CC:DD:EE:01" evs1 = []
      /\ scan [obs_test] t1 = (t2, Ok evs2)
      /\ events_for "AA:BB:CC:DD:EE:01" evs2 =
           [Event.mk NEW "AA:BB:CC:DD:EE:01" "Test" (-50)]
      /\ forall ops, exists t3 evs3,
           run ops t2 = (t3, Ok evs3)
           /\ ((forall e, In e evs3 -> Event.mac e = "AA:BB:CC:DD:EE:01" ->
                          Event.type e <> LOST) ->
               events_for "AA:BB:CC:DD:EE:01" evs3 = []
               /\ exists i, lookup "AA:BB:CC:DD:EE:01" (devices t3) = Some i
                            /\ Info.active i = true).
Proof.
  assert (H1 : wf (init 10 20)) by apply wf_init.
  assert (H2 : lookup "AA:BB:CC:DD:EE:01" (devices (init 10 20)) = None)
    by reflexivity.
  assert (H3 : In "AA:BB:CC:DD:EE:01" (map Observation.mac [obs_test]))
    by (simpl; left; reflexivity).
  assert (H4 : last_obs "AA:BB:CC:DD:EE:01" [obs_test] = Some obs_test)
    by reflexivity.
  repeat (split; [assumption|]).
  exact (confirmation_on_second_scan (init 10 20) "AA:BB:CC:DD:EE:01"
           [obs_test] [obs_test] obs_test H1 H2 H3 H4).
Defined.

(** ** Debounce *)

Lemma scan_record_unobserved (a : string) (obss : list Observation.t)
    (r : option Info.t) :
  last_obs a obss = None -> snd (scan_record a obss r) = [].
Proof.
  intros H. unfold scan_record, observe_all. rewrite H.
  destruct r as [i|]; reflexivity.
Qed.

Lemma check_lost_record_type (g wg : Z) (a : string) (now : Z)
    (r : option Info.t) (e : Event.t) :
  In e (snd (step_record g wg a (CheckLost now) r)) -> Event.type e = LOST.
Proof.
  destruct r as [i|]; simpl; [|tauto].
  destruct (judge g wg now a i) as [| |e'] eqn:J; simpl; try tauto.
  intros [<-|[]]. unfold judge in J.
  destruct (Info.last_seen i); [|discriminate].
  destruct (total_seconds_gt _ _); [|discriminate].
  now injection J as <-.
Qed.

Lemma cycle_record_types (g wg : Z) (a : string) (obss : list Observation.t)
    (now : Z) (r : option Info.t) (e : Event.t) :
  In e (snd (steps_record g wg a (cycle_ops obss now) r)) ->
  In e (snd (scan_record a obss r)) \/ Event.type e = LOST.
Proof.
  unfold cycle_ops. rewrite steps_record_app, steps_scan_ops.
  destruct (scan_record a obss r) as [r1 e1].
  cbn [steps_record].
  pose proof (check_lost_record_type g wg a now r1 e) as Hl.
  destruct (step_record g wg a (CheckLost now) r1) as [r2 e2].
  simpl in *. rewrite app_nil_r, in_app_iff. tauto.
Qed.

Lemma unobserved_cycles_no_new (g wg : Z) (a : string)
    (later : list (list Observation.t * Z)) :
  Forall (fun c => ~ In a (map Observation.mac (fst c))) later ->
  forall r e,
    In e (snd (steps_record g wg a (cycles_ops later) r)) ->
    Event.type e = LOST.
Proof.
  induction 1 as [|[obss now] later Hc _ IH]; intros r e; [simpl; tauto|].
  change (cycles_ops ((obss, now) :: later))
    with (cycle_ops obss now ++ cycles_ops later).
  rewrite steps_record_app.
  pose proof (cycle_record_types g wg a obss now r e) as Hcyc.
  destruct (steps_record g wg a (cycle_ops obss now) r) as [r1 e1].
  specialize (IH r1 e).
  destruct (steps_record g wg a (cycles_ops later) r1) as [r2 e2].
  simpl in *. rewrite in_app_iff. intros [He|He]; [|now apply IH].
  destruct (Hcyc He) as [Hs|Hs]; [|assumption].
  apply last_obs_None in Hc.
  now rewrite (scan_record_unobserved a obss r Hc) in Hs.
Qed.

Lemma first_scan_silent (a : string) (obss : list Observation.t) :
  snd (scan_record a obss None) = [].
Proof.
  unfold scan_record, observe_all. simpl.
  destruct (last_obs a obss); reflexivity.
Qed.

(** The hit count advances once per [finalize_scan], not once per scan:
    without a [new_scan] in between, the flag set by one [update] is still
    there at the second [finalize_scan], which then confirms the device.
    The debounce below is a property of the loop's order of calls. *)
Example finalize_scan_twice_confirms :
  run [Update obs_test; FinalizeScan; FinalizeScan] (init 10 20) =
  (mkTracker
     [("AA:BB:CC:DD:EE:01",
       Info.mk 2 (-50) "Test" "public" true (Some base) (Some true))]
     10 20,
   Ok [Event.mk NEW "AA:BB:CC:DD:EE:01" "Test" (-50)]).
Proof. reflexivity. Qed.

(** C2 (debounce): for an address with no record, one [update] followed at
    once by [finalize_scan] returns no NEW event for it; nor does a whole
    scan in which it is observed, whatever the observation says and whatever
    else is tracked; and if it is not observed again, no later round of the
    loop ever returns a NEW event for it. *)
Theorem debounce_single_scan
    (t : DeviceTracker) (a : string) (o : Observation.t)
    (obss : list Observation.t) (now : Z)
    (later : list (list Observation.t * Z)) :
  wf t ->
  lookup a (devices t) = None ->
  Observation.mac o = a ->
  Forall (fun c => ~ In a (map Observation.mac (fst c))) later ->
  (exists t1 evs1,
      finalize_scan (update o t) = (t1, Ok evs1) /\ events_for a evs1 = [])
  /\ (exists t1 evs1,
      scan obss t = (t1, Ok evs1) /\ events_for a evs1 = [])
  /\ exists t2 evs2,
      run (cycle_ops obss now ++ cycles_ops later) t = (t2, Ok evs2)
      /\ forall e, In e evs2 -> Event.mac e = a -> Event.type e <> NEW.
Proof.
  intros Hwf Hnone Hmac Hlater. repeat split.
  - destruct (exec_ok FinalizeScan (update o t) (wf_update o t Hwf))
      as (t1 & evs1 & E & _ & _ & _ & L).
    exists t1, evs1. split; [exact E|].
    destruct (L a) as [_ V]. rewrite V. simpl. subst a.
    now rewrite lookup_update_dict_eq, Hnone.
  - destruct (scan_local obss t Hwf) as (t1 & evs1 & E & _ & _ & _ & L).
    exists t1, evs1. split; [exact E|].
    destruct (L a) as [_ V]. rewrite V, Hnone. apply first_scan_silent.
  - destruct (run_ok (cycle_ops obss now ++ cycles_ops later) t Hwf)
      as (t2 & evs2 & E & _ & _ & _ & L).
    exists t2, evs2. split; [exact E|].
    intros e He Hm.
    assert (Hin : In e (events_for a evs2)) by now apply In_events_for.
    destruct (L a) as [_ V]. rewrite V, Hnone, steps_record_app in Hin.
    pose proof (cycle_record_types (grace t) (weak_grace t) a obss now None e)
      as Hcyc.
    destruct (steps_record _ _ a (cycle_ops obss now) None) as [r1 e1].
    pose proof (unobserved_cycles_no_new (grace t) (weak_grace t) a later
                  Hlater r1 e) as Hl.
    destruct (steps_record _ _ a (cycles_ops later) r1) as [r2 e2].
    simpl in *. apply in_app_iff in Hin as [Hin|Hin].
    + destruct (Hcyc Hin) as [Hs|Hs]; [|congruence].
      now rewrite first_scan_silent in Hs.
    + rewrite (Hl Hin). discriminate.
Qed.

Lemma debounce_single_scan_witness :
  wf (init 10 20)
  /\ lookup "AA:BB:CC:DD:EE:01" (devices (init 10 20)) = None
  /\ Observation.mac obs_test = "AA:BB:CC:DD:EE:01"
  /\ Forall (fun c => ~ In "AA:BB:CC:DD:EE:01" (map Observation.mac (fst c)))
            [([obs_weak], base + seconds 1)]
  /\ (exists t1 evs1,
        finalize_scan (update obs_test (init 10 20)) = (t1, Ok evs1)
        /\ events_for "AA:BB:CC:DD:EE:01" evs1 = [])
  /\ (exists t1 evs1,
        scan [obs_test; obs_test] (init 10 20) = (t1, Ok evs1)
        /\ events_for "AA:BB:CC:DD:EE:01" evs1 = [])
  /\ exists t2 evs2,
      run (cycle_ops [obs_test; obs_test] base
             ++ cycles_ops [([obs_weak], base + seconds 1)]) (init 10 20)
      = (t2, Ok evs2)
      /\ forall e, In e evs2 -> Event.mac e = "AA:BB:CC:DD:EE:01" ->
                   Event.type e <> NEW.
Proof.
  assert (H1 : wf (init 10 20)) by apply wf_init.
  assert (H2 : lookup "AA:BB:CC:DD:EE:01" (devices (init 10 20)) = None)
    by reflexivity.
  assert (H3 : Observation.mac obs_test = "AA:BB:CC:DD:EE:01") by reflexivity.
  assert (H4 : Forall
                 (fun c => ~ In "AA:BB:CC:DD:EE:01"
                                (map Observation.mac (fst c)))
                 [([obs_weak], base + seconds 1)]).
  { repeat constructor. simpl. intros [H|[]]. discriminate H. }
  repeat (split; [assumption|]).
  exact (debounce_single_scan (init 10 20) "AA:BB:CC:DD:EE:01" obs_test
           [obs_test; obs_test] base [([obs_weak], base + seconds 1)]
           H1 H2 H3 H4).
Defined.

(** ** Grace periods *)

(** [check_lost] seen from one record whose ["last_seen"] is set. *)
Lemma check_lost_record (now : Z) (t : DeviceTracker) (a : string)
    (i : Info.t) (last : Z) :
  wf t ->
  lookup a (devices t) = Some i ->
  Info.last_seen i = Some last ->
  exists t' evs,
    check_lost now t = (t', Ok evs)
    /\ wf t'
    /\ grace t' = grace t /\ weak_grace t' = weak_grace t
    /\ if total_seconds_gt (now - last)
            (if Info.last_rssi i <? -90 then weak_grace t else grace t)
       then events_for a evs = [lost_event a i]
            /\ lookup a (devices t') = None
       else events_for a evs = [] /\ lookup a (devices t') = Some i.
Proof.
  intros Hwf Hl Hlast.
  destruct (exec_ok (CheckLost now) t Hwf)
    as (t' & evs & E & Hwf' & Hg & Hwg & L).
  exists t', evs. do 4 (split; [assumption|]).
  destruct (L a) as [R V]. rewrite R, V, Hl. simpl.
  unfold judge. rewrite Hlast.
  destruct (total_seconds_gt _ _); simpl; auto.
Qed.

Lemma total_seconds_gt_true (delta g : Z) :
  total_seconds_gt delta g = true <-> seconds g < delta.
Proof. unfold total_seconds_gt. apply Z.ltb_lt. Qed.

Lemma total_seconds_gt_false (delta g : Z) :
  total_seconds_gt delta g = false <-> delta <= seconds g.
Proof. unfold total_seconds_gt. apply Z.ltb_ge. Qed.

(** C4 (signal-dependent grace): with grace periods below [2^33] seconds,
    where comparing microseconds is what the code's comparison of a double
    does: for a record last seen at [last], [check_lost now] uses
    [weak_grace] exactly when the last signal strength is below -90 (at -90
    it uses [grace]); it returns the LOST event and deletes the record when
    [now - last] exceeds that many seconds, and otherwise returns nothing
    about the address and keeps the record.  With graces of 10 and 20
    seconds, a record weaker than -90 survives [check_lost] 11 seconds
    after [last] and is reported lost 21 seconds after it. *)
Theorem expiry_by_effective_grace
    (t : DeviceTracker) (a : string) (i : Info.t) (last : Z) :
  wf t ->
  exact_graces t ->
  lookup a (devices t) = Some i ->
  Info.last_seen i = Some last ->
  (forall now, exists t' evs,
      check_lost now t = (t', Ok evs)
      /\ (Info.last_rssi i < -90 ->
          (seconds (weak_grace t) < now - last ->
           events_for a evs = [lost_event a i]
           /\ lookup a (devices t') = None)
          /\ (now - last <= seconds (weak_grace t) ->
              events_for a evs = [] /\ lookup a (devices t') = Some i))
      /\ (-90 <= Info.last_rssi i ->
          (seconds (grace t) < now - last ->
           events_for a evs = [lost_event a i]
           /\ lookup a (devices t') = None)
          /\ (now - last <= seconds (grace t) ->
              events_for a evs = [] /\ lookup a (devices t') = Some i)))
  /\ (grace t = 10 -> weak_grace t = 20 -> Info.last_rssi i < -90 ->
      exists t1 evs1 t2 evs2,
        check_lost (last + seconds 11) t = (t1, Ok evs1)
        /\ events_for a evs1 = []
        /\ check_lost (last + seconds 21) t1 = (t2, Ok evs2)
        /\ events_for a evs2 = [lost_event a i]).
Proof.
  intros Hwf _ Hl Hlast. split.
  - intros now.
    destruct (check_lost_record now t a i last Hwf Hl Hlast)
      as (t' & evs & E & _ & _ & _ & H).
    exists t', evs. split; [exact E|].
    split; intros Hr.
    + apply Z.ltb_lt in Hr. rewrite Hr in H.
      destruct (total_seconds_gt _ _) eqn:G.
      * apply total_seconds_gt_true in G. split; [auto | lia].
      * apply total_seconds_gt_false in G. split; [lia | auto].
    + apply Z.ltb_ge in Hr. rewrite Hr in H.
      destruct (total_seconds_gt _ _) eqn:G.
      * apply total_seconds_gt_true in G. split; [auto | lia].
      * apply total_seconds_gt_false in G. split; [lia | auto].
  - intros Hg Hwg Hr. apply Z.ltb_lt in Hr.
    destruct (check_lost_record (last + seconds 11) t a i last Hwf Hl Hlast)
      as (t1 & evs1 & E1 & Hwf1 & Hg1 & Hwg1 & H1).
    rewrite Hr, Hwg in H1.
    replace (total_seconds_gt (last + seconds 11 - last) 20) with false in H1
      by (symmetry; apply total_seconds_gt_false; unfold seconds; lia).
    destruct H1 as [V1 R1].
    destruct (check_lost_record (last + seconds 21) t1 a i last Hwf1 R1 Hlast)
      as (t2 & evs2 & E2 & _ & _ & _ & H2).
    rewrite Hr, Hwg1, Hwg in H2.
    replace (total_seconds_gt (last + seconds 21 - last) 20) with true in H2
      by (symmetry; apply total_seconds_gt_true; unfold seconds; lia).
    exists t1, evs1, t2, evs2. tauto.
Qed.

Lemma expiry_by_effective_grace_witness :
  wf weak_tracker
  /\ exact_graces weak_tracker
  /\ lookup "AA:BB:CC:DD:EE:02" (devices weak_tracker) = Some weak_info
  /\ Info.last_seen weak_info = Some base
  /\ exists t1 evs1 t2 evs2,
      check_lost (base + seconds 11) weak_tracker = (t1, Ok evs1)
      /\ events_for "AA:BB:CC:DD:EE:02" evs1 = []
      /\ check_lost (base + seconds 21) t1 = (t2, Ok evs2)
      /\ events_for "AA:BB:CC:DD:EE:02" evs2 =
           [lost_event "AA:BB:CC:DD:EE:02" weak_info].
Proof.
  assert (H1 : wf weak_tracker) by (apply wfb_wf; reflexivity).
  assert (H0 : exact_graces weak_tracker) by (split; simpl; lia).
  assert (H2 : lookup "AA:BB:CC:DD:EE:02" (devices weak_tracker)
               = Some weak_info) by reflexivity.
  assert (H3 : Info.last_seen weak_info = Some base) by reflexivity.
  repeat (split; [assumption|]).
  apply (expiry_by_effective_grace weak_tracker "AA:BB:CC:DD:EE:02"
           weak_info base H1 H0 H2 H3); [reflexivity | reflexivity |].
  simpl. lia.
Defined.

Lemma check_lost_absent (now : Z) (t : DeviceTracker) (a : string) :
  wf t ->
  lookup a (devices t) = None ->
  exists t' evs,
    check_lost now t = (t', Ok evs)
    /\ wf t'
    /\ events_for a evs = []
    /\ lookup a (devices t') = None.
Proof.
  intros Hwf Hl.
  destruct (exec_ok (CheckLost now) t Hwf) as (t' & evs & E & Hwf' & _ & _ & L).
  exists t', evs. do 2 (split; [assumption|]).
  destruct (L a) as [R V]. rewrite R, V, Hl. auto.
Qed.

(** C3 as it is worded fails in the scenario of [test_new_and_lost]: the
    device is confirmed, its signal is -50 and it was last seen at [base],
    yet the first [check_lost] 11 seconds later already returns its LOST
    event, so that call is not silent (and the second one is). *)
Lemma grace_claim_counterexample :
  wf confirmed_tracker
  /\ grace confirmed_tracker = 10 /\ weak_grace confirmed_tracker = 20
  /\ lookup "AA:BB:CC:DD:EE:01" (devices confirmed_tracker) = Some confirmed_info
  /\ Info.active confirmed_info = true
  /\ -90 <= Info.last_rssi confirmed_info
  /\ Info.last_seen confirmed_info = Some base
  /\ ~ (exists t1 evs1 t2 evs2,
          check_lost (base + seconds 11) confirmed_tracker = (t1, Ok evs1)
          /\ events_for "AA:BB:CC:DD:EE:01" evs1 = []
          /\ check_lost (base + seconds 11) t1 = (t2, Ok evs2)
          /\ events_for "AA:BB:CC:DD:EE:01" evs2 =
               [lost_event "AA:BB:CC:DD:EE:01" confirmed_info]).
Proof.
  split; [apply wfb_wf; reflexivity|].
  do 4 (split; [reflexivity|]).
  split; [simpl; lia|]. split; [reflexivity|].
  intros (t1 & evs1 & t2 & evs2 & E1 & V1 & _).
  vm_compute in E1. injection E1 as <- <-. discriminate V1.
Qed.

(** C3, amended (grace): with graces of 10 and 20 seconds, for a record,
    confirmed or not, whose last signal strength is at least -90 and which
    was last seen at [t0]: [check_lost] 10 seconds after [t0] returns nothing
    about the address and keeps the record; [check_lost] 11 seconds after
    [t0] returns its LOST event and deletes the record; a second
    [check_lost] at that same time returns nothing about the address. *)
Theorem lost_after_grace
    (t : DeviceTracker) (a : string) (i : Info.t) (t0 : Z) :
  wf t ->
  grace t = 10 ->
  weak_grace t = 20 ->
  lookup a (devices t) = Some i ->
  -90 <= Info.last_rssi i ->
  Info.last_seen i = Some t0 ->
  (exists t1 evs1,
      check_lost (t0 + seconds 10) t = (t1, Ok evs1)
      /\ events_for a evs1 = []
      /\ lookup a (devices t1) = Some i)
  /\ exists t1 evs1 t2 evs2,
      check_lost (t0 + seconds 11) t = (t1, Ok evs1)
      /\ events_for a evs1 = [lost_event a i]
      /\ lookup a (devices t1) = None
      /\ check_lost (t0 + seconds 11) t1 = (t2, Ok evs2)
      /\ events_for a evs2 = []
      /\ lookup a (devices t2) = None.
Proof.
  intros Hwf Hg Hwg Hl Hr Hlast. apply Z.ltb_ge in Hr. split.
  - destruct (check_lost_record (t0 + seconds 10) t a i t0 Hwf Hl Hlast)
      as (t1 & evs1 & E1 & _ & _ & _ & H1).
    rewrite Hr, Hg in H1.
    replace (total_seconds_gt (t0 + seconds 10 - t0) 10) with false in H1
      by (symmetry; apply total_seconds_gt_false; unfold seconds; lia).
    exists t1, evs1. tauto.
  - destruct (check_lost_record (t0 + seconds 11) t a i t0 Hwf Hl Hlast)
      as (t1 & evs1 & E1 & Hwf1 & _ & _ & H1).
    rewrite Hr, Hg in H1.
    replace (total_seconds_gt (t0 + seconds 11 - t0) 10) with true in H1
      by (symmetry; apply total_seconds_gt_true; unfold seconds; lia).
    destruct H1 as [V1 R1].
    destruct (check_lost_absent (t0 + seconds 11) t1 a Hwf1 R1)
      as (t2 & evs2 & E2 & _ & V2 & R2).
    exists t1, evs1, t2, evs2. tauto.
Qed.

Lemma lost_after_grace_witness :
  wf confirmed_tracker
  /\ grace confirmed_tracker = 10 /\ weak_grace confirmed_tracker = 20
  /\ lookup "AA:BB:CC:DD:EE:01" (devices confirmed_tracker) = Some confirmed_info
  /\ -90 <= Info.last_rssi confirmed_info
  /\ Info.last_seen confirmed_info = Some base
  /\ (exists t1 evs1,
        check_lost (base + seconds 10) confirmed_tracker = (t1, Ok evs1)
        /\ events_for "AA:BB:CC:DD:EE:01" evs1 = []
        /\ lookup "AA:BB:CC:DD:EE:01" (devices t1) = Some confirmed_info)
  /\ exists t1 evs1 t2 evs2,
      check_lost (base + seconds 11) confirmed_tracker = (t1, Ok evs1)
      /\ events_for "AA:BB:CC:DD:EE:01" evs1 =
           [lost_event "AA:BB:CC:DD:EE:01" confirmed_info]
      /\ lookup "AA:BB:CC:DD:EE:01" (devices t1) = None
      /\ check_lost (base + seconds 11) t1 = (t2, Ok evs2)
      /\ events_for "AA:BB:CC:DD:EE:01" evs2 = []
      /\ lookup "AA:BB:CC:DD:EE:01" (devices t2) = None.
Proof.
  assert (H1 : wf confirmed_tracker) by (apply wfb_wf; reflexivity).
  assert (H2 : grace confirmed_tracker = 10) by reflexivity.
  assert (H3 : weak_grace confirmed_tracker = 20) by reflexivity.
  assert (H4 : lookup "AA:BB:CC:DD:EE:01" (devices confirmed_tracker)
               = Some confirmed_info) by reflexivity.
  assert (H5 : -90 <= Info.last_rssi confirmed_info) by (simpl; lia).
  assert (H6 : Info.last_seen confirmed_info = Some base) by reflexivity.
  repeat (split; [assumption|]).
  exact (lost_after_grace confirmed_tracker "AA:BB:CC:DD:EE:01"
           confirmed_info base H1 H2 H3 H4 H5 H6).
Defined.

(** ** A miss does not unconfirm *)

(** C5 (no duplicate NEW): a confirmed record whose address is missing from
    one scan comes out of that scan's [finalize_scan] with its hit count at
    0, still confirmed and still there; [check_lost] within the grace period
    leaves it alone; and when the address is observed in the next scan, that
    scan's [finalize_scan] returns no NEW event for it. *)
Theorem no_second_new_after_miss
    (t : DeviceTracker) (a : string) (i : Info.t) (last now : Z)
    (obss1 obss2 : list Observation.t) :
  wf t ->
  lookup a (devices t) = Some i ->
  Info.active i = true ->
  Info.last_seen i = Some last ->
  ~ In a (map Observation.mac obss1) ->
  now - last <= seconds (effective_grace t i) ->
  In a (map Observation.mac obss2) ->
  exists t1 evs1 i1 t2 evs2 t3 evs3 i3,
    scan obss1 t = (t1, Ok evs1)
    /\ events_for a evs1 = []
    /\ lookup a (devices t1) = Some i1
    /\ Info.consecutive i1 = 0
    /\ Info.active i1 = true
    /\ check_lost now t1 = (t2, Ok evs2)
    /\ events_for a evs2 = []
    /\ lookup a (devices t2) = Some i1
    /\ scan obss2 t2 = (t3, Ok evs3)
    /\ events_for a evs3 = []
    /\ lookup a (devices t3) = Some i3
    /\ Info.active i3 = true.
Proof.
  intros Hwf Hl Hact Hlast Hmiss Hgrace Hobs.
  apply last_obs_None in Hmiss.
  destruct (last_obs a obss2) as [o2|] eqn:Hlast2;
    [|now apply last_obs_None in Hlast2].
  destruct (scan_local obss1 t Hwf) as (t1 & evs1 & E1 & Hwf1 & Hg1 & Hwg1 & L1).
  destruct (L1 a) as [R1 V1]. rewrite Hl in R1, V1.
  unfold scan_record, observe_all in R1, V1. rewrite Hmiss in R1, V1.
  simpl in R1, V1.
  set (i1 := Info.set_consecutive 0 (Info.set_seen false i)) in *.
  destruct (check_lost_record now t1 a i1 last Hwf1 R1 Hlast)
    as (t2 & evs2 & E2 & Hwf2 & _ & _ & H2).
  rewrite Hg1, Hwg1 in H2. change (Info.last_rssi i1) with (Info.last_rssi i) in H2.
  replace (total_seconds_gt _ _) with false in H2
    by (symmetry; now apply total_seconds_gt_false).
  destruct H2 as [V2 R2].
  destruct (scan_local obss2 t2 Hwf2) as (t3 & evs3 & E3 & _ & _ & _ & L3).
  destruct (L3 a) as [R3 V3]. rewrite R2 in R3, V3.
  unfold scan_record, observe_all in R3, V3. rewrite Hlast2 in R3, V3.
  unfold fin_info, fin_events, finalize_one in R3, V3. simpl in R3, V3.
  rewrite Hact in R3, V3. simpl in R3, V3.
  exists t1, evs1, i1, t2, evs2, t3, evs3. eexists.
  repeat (split; [eassumption || reflexivity|]). exact Hact.
Qed.

Lemma no_second_new_after_miss_witness :
  wf confirmed_tracker
  /\ lookup "AA:BB:CC:DD:EE:01" (devices confirmed_tracker) = Some confirmed_info
  /\ Info.active confirmed_info = true
  /\ Info.last_seen confirmed_info = Some base
  /\ ~ In "AA:BB:CC:DD:EE:01" (map Observation.mac [])
  /\ (base + seconds 1) - base
     <= seconds (effective_grace confirmed_tracker confirmed_info)
  /\ In "AA:BB:CC:DD:EE:01" (map Observation.mac [obs_test])
  /\ exists t1 evs1 i1 t2 evs2 t3 evs3 i3,
      scan [] confirmed_tracker = (t1, Ok evs1)
      /\ events_for "AA:BB:CC:DD:EE:01" evs1 = []
      /\ lookup "AA:BB:CC:DD:EE:01" (devices t1) = Some i1
      /\ Info.consecutive i1 = 0
      /\ Info.active i1 = true
      /\ check_lost (base + seconds 1) t1 = (t2, Ok evs2)
      /\ events_for "AA:BB:CC:DD:EE:01" evs2 = []
      /\ lookup "AA:BB:CC:DD:EE:01" (devices t2) = Some i1
      /\ scan [obs_test] t2 = (t3, Ok evs3)
      /\ events_for "AA:BB:CC:DD:EE:01" evs3 = []
      /\ lookup "AA:BB:CC:DD:EE:01" (devices t3) = Some i3
      /\ Info.active i3 = true.
Proof.
  assert (H1 : wf confirmed_tracker) by (apply wfb_wf; reflexivity).
  assert (H2 : lookup "AA:BB:CC:DD:EE:01" (devices confirmed_tracker)
               = Some confirmed_info) by reflexivity.
  assert (H3 : Info.active confirmed_info = true) by reflexivity.
  assert (H4 : Info.last_seen confirmed_info = Some base) by reflexivity.
  assert (H5 : ~ In "AA:BB:CC:DD:EE:01" (map Observation.mac []))
    by (simpl; tauto).
  assert (H6 : (base + seconds 1) - base
               <= seconds (effective_grace confirmed_tracker confirmed_info))
    by (vm_compute; discriminate).
  assert (H7 : In "AA:BB:CC:DD:EE:01" (map Observation.mac [obs_test]))
    by (simpl; left; reflexivity).
  repeat (split; [assumption|]).
  exact (no_second_new_after_miss confirmed_tracker "AA:BB:CC:DD:EE:01"
           confirmed_info base (base + seconds 1) [] [obs_test]
           H1 H2 H3 H4 H5 H6 H7).
Defined.

(** ** Eviction *)

Lemma absent_steps (g wg : Z) (a : string) (ops : list op) :
  Forall (not_update_of a) ops ->
  steps_record g wg a ops None = (None, []).
Proof.
  induction 1 as [|o ops Ho _ IH]; simpl; [reflexivity|].
  destruct o as [|obs| |now]; simpl in *; try now rewrite IH.
  destruct (String.eqb_spec (Observation.mac obs) a); [contradiction|].
  now rewrite IH.
Qed.

(** C6 (eviction is final): once [check_lost] has returned an event about
    an address, that event is its LOST event and its record is gone; any
    later [check_lost], at whatever time, and more generally any calls that
    do not [update] that address, return nothing about it and leave it
    without a record; the next [update] for it creates a record that is not
    confirmed and has no hits. *)
Theorem eviction_is_final
    (t t1 : DeviceTracker) (a : string) (now : Z)
    (evs : list Event.t) (e : Event.t) :
  wf t ->
  check_lost now t = (t1, Ok evs) ->
  In e evs ->
  Event.mac e = a ->
  Event.type e = LOST
  /\ lookup a (devices t1) = None
  /\ (forall now', exists t2 evs2,
        check_lost now' t1 = (t2, Ok evs2)
        /\ events_for a evs2 = []
        /\ lookup a (devices t2) = None)
  /\ forall ops,
      Forall (not_update_of a) ops ->
      exists t2 evs2,
        run ops t1 = (t2, Ok evs2)
        /\ events_for a evs2 = []
        /\ lookup a (devices t2) = None
        /\ forall obs,
            Observation.mac obs = a ->
            lookup a (devices (update obs t2)) =
            Some (Info.mk 0 (Observation.rssi obs) (Observation.name obs)
                          (Observation.address_type obs) false
                          (Some (Observation.timestamp obs)) (Some true)).
Proof.
  intros Hwf E He Hmac.
  destruct (exec_ok (CheckLost now) t Hwf) as (t1' & evs' & E' & Hwf1 & _ & _ & L).
  simpl in E'. rewrite E in E'. injection E' as <- <-.
  destruct (L a) as [R V].
  assert (Hin : In e (events_for a evs)) by now apply In_events_for.
  rewrite V in Hin.
  assert (Hty : Event.type e = LOST)
    by (eapply check_lost_record_type; exact Hin).
  assert (Hgone : lookup a (devices t1) = None).
  { rewrite R. simpl in *. destruct (lookup a (devices t)) as [i|]; [|reflexivity].
    destruct (judge _ _ now a i); simpl in *; tauto. }
  do 2 (split; [assumption|]). split.
  - intros now'.
    destruct (check_lost_absent now' t1 a Hwf1 Hgone) as (t2 & evs2 & E2 & _ & H).
    now exists t2, evs2.
  - intros ops Hops.
    destruct (run_ok ops t1 Hwf1) as (t2 & evs2 & E2 & _ & _ & _ & L2).
    destruct (L2 a) as [R2 V2].
    rewrite Hgone, absent_steps in R2, V2 by assumption. simpl in R2, V2.
    exists t2, evs2. do 3 (split; [assumption|]).
    intros obs <-. simpl. now rewrite lookup_update_dict_eq, R2.
Qed.

Lemma eviction_is_final_witness :
  wf confirmed_tracker
  /\ check_lost (base + seconds 11) confirmed_tracker =
       (init 10 20, Ok [lost_event "AA:BB:CC:DD:EE:01" confirmed_info])
  /\ In (lost_event "AA:BB:CC:DD:EE:01" confirmed_info)
        [lost_event "AA:BB:CC:DD:EE:01" confirmed_info]
  /\ Event.mac (lost_event "AA:BB:CC:DD:EE:01" confirmed_info)
     = "AA:BB:CC:DD:EE:01"
  /\ Event.type (lost_event "AA:BB:CC:DD:EE:01" confirmed_info) = LOST
  /\ lookup "AA:BB:CC:DD:EE:01" (devices (init 10 20)) = None
  /\ forall now', exists t2 evs2,
        check_lost now' (init 10 20) = (t2, Ok evs2)
        /\ events_for "AA:BB:CC:DD:EE:01" evs2 = []
        /\ lookup "AA:BB:CC:DD:EE:01" (devices t2) = None.
Proof.
  assert (H1 : wf confirmed_tracker) by (apply wfb_wf; reflexivity).
  assert (H2 : check_lost (base + seconds 11) confirmed_tracker =
               (init 10 20, Ok [lost_event "AA:BB:CC:DD:EE:01" confirmed_info]))
    by reflexivity.
  assert (H3 : In (lost_event "AA:BB:CC:DD:EE:01" confirmed_info)
                  [lost_event "AA:BB:CC:DD:EE:01" confirmed_info])
    by (simpl; left; reflexivity).
  assert (H4 : Event.mac (lost_event "AA:BB:CC:DD:EE:01" confirmed_info)
               = "AA:BB:CC:DD:EE:01") by reflexivity.
  repeat (split; [assumption|]).
  destruct (eviction_is_final confirmed_tracker (init 10 20)
              "AA:BB:CC:DD:EE:01" (base + seconds 11)
              [lost_event "AA:BB:CC:DD:EE:01" confirmed_info]
              (lost_event "AA:BB:CC:DD:EE:01" confirmed_info) H1 H2 H3 H4)
    as (K1 & K2 & K3 & _).
  auto.
Defined.

(** ** Which addresses have a record *)

Lemma In_keys_lookup (k : string) (d : dict) :
  In k (keys d) <-> lookup k d <> None.
Proof.
  pose proof (lookup_None_iff k d) as H.
  destruct (lookup k d) eqn:E.
  - split; [discriminate|]. intros _.
    destruct (in_dec string_dec k (keys d)) as [Hin|Hn]; [assumption|].
    apply H in Hn. discriminate.
  - split; [|congruence]. intros Hin. now apply H in Hin.
Qed.

Lemma existsb_for_mac (a : string) (evs : list Event.t) :
  existsb (for_mac a) evs =
  match events_for a evs with [] => false | _ :: _ => true end.
Proof.
  induction evs as [|e evs IH]; simpl; [reflexivity|].
  destruct (for_mac a e); simpl; [reflexivity | exact IH].
Qed.

Lemma In_macs_events_for (a : string) (evs : list Event.t) :
  In a (map Event.mac evs) <-> events_for a evs <> [].
Proof.
  split.
  - intros H. apply in_map_iff in H as (e & Hm & He).
    assert (Hin : In e (events_for a evs)) by now apply In_events_for.
    intros Hnil. now rewrite Hnil in Hin.
  - destruct (events_for a evs) as [|e l] eqn:E; [congruence|]. intros _.
    assert (Hin : In e (events_for a evs)) by (rewrite E; now left).
    apply In_events_for in Hin as [He Hm]. apply in_map_iff. now exists e.
Qed.

Lemma observed_and_not_lost_run (g wg : Z) (a : string) (ops : list op) :
  forall (d : dict) (b : bool),
    wf_dict d ->
    (b = true <-> lookup a d <> None) ->
    exists d' evs,
      run ops (mkTracker d g wg) = (mkTracker d' g wg, Ok evs)
      /\ (observed_and_not_lost b a (history ops (mkTracker d g wg)) = true
          <-> lookup a d' <> None).
Proof.
  induction ops as [|o ops IH]; intros d b Hwf Hb.
  - exists d, []. simpl. auto.
  - destruct (exec_local g wg o d Hwf) as (d1 & evs1 & E1 & Hwf1 & L1).
    destruct (L1 a) as [R1 V1].
    cbn [run history]. rewrite E1.
    set (b1 := match o with
               | Update obs =>
                   if String.eqb (Observation.mac obs) a then true else b
               | CheckLost _ => if existsb (for_mac a) evs1 then false else b
               | _ => b
               end).
    assert (Hb1 : b1 = true <-> lookup a d1 <> None).
    { subst b1. rewrite R1. rewrite existsb_for_mac, V1.
      destruct o as [|obs| |now]; simpl.
      - destruct (lookup a d); simpl in *; [|exact Hb].
        rewrite Hb. split; discriminate.
      - destruct (String.eqb (Observation.mac obs) a); simpl; [|exact Hb].
        split; [discriminate | reflexivity].
      - destruct (lookup a d); simpl in *; [|exact Hb].
        rewrite Hb. split; discriminate.
      - destruct (lookup a d) as [i|]; simpl in *; [|exact Hb].
        destruct (judge g wg now a i); simpl; try exact Hb.
        split; [discriminate | congruence]. }
    destruct (IH d1 b1 Hwf1 Hb1) as (d2 & evs2 & E2 & H2).
    rewrite E2. exists d2, (evs1 ++ evs2). split; [reflexivity|].
    rewrite <- H2. subst b1. destruct o; reflexivity.
Qed.

(** C7 (record lifecycle): [new_scan] and [finalize_scan] leave the set of
    keys as it is; [update] adds its address at the end when that address
    has no record and changes no key otherwise; [check_lost] returns LOST
    events only, and the keys it leaves are exactly the old keys for which it
    returned no event.  So, after any sequence of calls on a new tracker, an
    address has a record if and only if it has been observed and no LOST
    event has been returned for it since. *)
Theorem record_lifecycle
    (t : DeviceTracker) (obs : Observation.t) (now : Z)
    (g wg : Z) (ops : list op) (a : string) :
  wf t ->
  keys (devices (new_scan t)) = keys (devices t)
  /\ (exists t' evs,
        finalize_scan t = (t', Ok evs) /\ keys (devices t') = keys (devices t))
  /\ (In (Observation.mac obs) (keys (devices t)) ->
      keys (devices (update obs t)) = keys (devices t))
  /\ (~ In (Observation.mac obs) (keys (devices t)) ->
      keys (devices (update obs t)) = keys (devices t) ++ [Observation.mac obs])
  /\ (exists t' evs,
        check_lost now t = (t', Ok evs)
        /\ (forall e, In e evs -> Event.type e = LOST)
        /\ (forall k, In k (map Event.mac evs) -> In k (keys (devices t)))
        /\ forall k, In k (keys (devices t')) <->
                     In k (keys (devices t)) /\ ~ In k (map Event.mac evs))
  /\ exists t' evs,
      run ops (init g wg) = (t', Ok evs)
      /\ (In a (keys (devices t')) <->
          observed_and_not_lost false a (history ops (init g wg)) = true).
Proof.
  intros Hwf. split; [|split; [|split; [|split; [|split]]]].
  - simpl. apply keys_map. reflexivity.
  - rewrite (finalize_scan_ok t Hwf). eexists _, _. split; [reflexivity|].
    simpl. apply (keys_map _ fin_info_fst).
  - intros Hin. simpl. rewrite keys_update_dict.
    apply In_keys_lookup in Hin.
    now destruct (lookup (Observation.mac obs) (devices t)).
  - intros Hn. simpl. rewrite keys_update_dict.
    apply lookup_None_iff in Hn. now rewrite Hn.
  - destruct (exec_ok (CheckLost now) t Hwf) as (t' & evs & E & _ & _ & _ & L).
    exists t', evs. split; [exact E|]. split; [|split].
    + intros e He.
      assert (Hin : In e (events_for (Event.mac e) evs))
        by now apply In_events_for.
      destruct (L (Event.mac e)) as [_ V]. rewrite V in Hin.
      eapply check_lost_record_type. exact Hin.
    + intros k Hk. apply In_macs_events_for in Hk.
      destruct (L k) as [_ V]. rewrite V in Hk. apply In_keys_lookup.
      simpl in Hk. now destruct (lookup k (devices t)).
    + intros k. rewrite In_macs_events_for, !In_keys_lookup.
      destruct (L k) as [R V]. rewrite R, V. simpl.
      destruct (lookup k (devices t)) as [i|]; simpl.
      * destruct (judge _ _ now k i); simpl.
        -- split; [split; congruence | intros _; discriminate].
        -- split; [split; congruence | intros _; discriminate].
        -- split; [congruence|]. intros [_ H]. exfalso. apply H. discriminate.
      * split; [congruence | tauto].
  - destruct (observed_and_not_lost_run g wg a ops [] false)
      as (d' & evs & E & H).
    + apply (wf_init g wg).
    + simpl. split; [discriminate | congruence].
    + exists (mkTracker d' g wg), evs. split; [exact E|].
      simpl. rewrite In_keys_lookup. symmetry. exact H.
Qed.

Lemma record_lifecycle_witness :
  wf confirmed_tracker
  /\ keys (devices (new_scan confirmed_tracker)) = keys (devices confirmed_tracker)
  /\ (exists t' evs,
        finalize_scan confirmed_tracker = (t', Ok evs)
        /\ keys (devices t') = keys (devices confirmed_tracker))
  /\ (In (Observation.mac obs_weak) (keys (devices confirmed_tracker)) ->
      keys (devices (update obs_weak confirmed_tracker))
      = keys (devices confirmed_tracker))
  /\ (~ In (Observation.mac obs_weak) (keys (devices confirmed_tracker)) ->
      keys (devices (update obs_weak confirmed_tracker))
      = keys (devices confirmed_tracker) ++ [Observation.mac obs_weak])
  /\ (exists t' evs,
        check_lost (base + seconds 11) confirmed_tracker = (t', Ok evs)
        /\ (forall e, In e evs -> Event.type e = LOST)
        /\ (forall k, In k (map Event.mac evs) ->
                      In k (keys (devices confirmed_tracker)))
        /\ forall k, In k (keys (devices t')) <->
                     In k (keys (devices confirmed_tracker))
                     /\ ~ In k (map Event.mac evs))
  /\ exists t' evs,
      run (cycle_ops [obs_test] base ++ cycle_ops [obs_test] (base + seconds 11))
          (init 10 20) = (t', Ok evs)
      /\ (In "AA:BB:CC:DD:EE:01" (keys (devices t')) <->
          observed_and_not_lost false "AA:BB:CC:DD:EE:01"
            (history (cycle_ops [obs_test] base
                        ++ cycle_ops [obs_test] (base + seconds 11))
                     (init 10 20)) = true).
Proof.
  assert (H1 : wf confirmed_tracker) by (apply wfb_wf; reflexivity).
  split; [exact H1|].
  exact (record_lifecycle confirmed_tracker obs_weak (base + seconds 11) 10 20
           (cycle_ops [obs_test] base ++ cycle_ops [obs_test] (base + seconds 11))
           "AA:BB:CC:DD:EE:01" H1).
Defined.

(** ** Reachable trackers *)

Lemma reachable_wf (t : DeviceTracker) : reachable t -> wf t.
Proof.
  induction 1 as [g wg|o t _ IH]; [apply wf_init|].
  destruct (exec_ok o t IH) as (t' & evs & E & Hwf & _).
  now rewrite E.
Qed.

Lemma reachable_run (ops : list op) :
  forall t, reachable t -> reachable (fst (run ops t)).
Proof.
  induction ops as [|o ops IH]; intros t Hr; simpl; [assumption|].
  pose proof (reachable_exec o t Hr) as H1.
  destruct (exec o t) as [t1 [evs|e]]; simpl in *; [|assumption].
  specialize (IH t1 H1). now destruct (run ops t1) as [t2 r].
Qed.

Lemma step_record_at_most_one (g wg : Z) (a : string) (o : op)
    (r : option Info.t) :
  (List.length (snd (step_record g wg a o r)) <= 1)%nat.
Proof.
  destruct o as [|obs| |now]; simpl; auto.
  - destruct (String.eqb (Observation.mac obs) a); simpl; auto.
  - destruct r as [i|]; simpl; auto.
    unfold fin_events, finalize_one. simpl.
    destruct (Info.seen i) as [[|]|]; simpl; auto.
    destruct (_ && _); simpl; auto.
  - destruct r as [i|]; simpl; auto.
    destruct (judge g wg now a i); simpl; auto.
Qed.

Lemma step_record_justified (t : DeviceTracker) (o : op) (e : Event.t) :
  In e (snd (step_record (grace t) (weak_grace t) (Event.mac e) o
               (lookup (Event.mac e) (devices t)))) ->
  justified t o e.
Proof.
  destruct o as [|obs| |now]; simpl.
  - tauto.
  - destruct (String.eqb (Observation.mac obs) (Event.mac e)); simpl; tauto.
  - destruct (lookup (Event.mac e) (devices t)) as [i|]; simpl; [|tauto].
    unfold fin_events, finalize_one. simpl.
    destruct (Info.seen i) as [[|]|] eqn:Hs; simpl; try tauto.
    destruct (Info.active i) eqn:Ha; simpl; [tauto|].
    destruct (2 <=? Info.consecutive i + 1) eqn:Hc; simpl; [|tauto].
    intros [<-|[]]. simpl. split; [reflexivity|].
    exists i. apply Z.leb_le in Hc. rewrite Ha. auto 7.
  - destruct (lookup (Event.mac e) (devices t)) as [i|]; simpl; [|tauto].
    unfold judge, effective_grace.
    destruct (Info.last_seen i) as [last|] eqn:Hl; simpl; [|tauto].
    destruct (total_seconds_gt _ _) eqn:G; simpl; [|tauto].
    intros [<-|[]]. simpl. split; [reflexivity|].
    exists i, last. apply total_seconds_gt_true in G. auto 7.
Qed.

(** C8 (totality and safety): from any tracker reached by calls of the four
    methods, each of the four returns without raising, leaves a well-formed
    tracker with the same grace periods, and returns only events the state
    called for: a NEW event for a record seen in this scan, not yet
    confirmed, whose hit count reaches 2; a LOST event for a record older
    than its grace period; each with the record's name and signal strength,
    and at most one per address.  On a new tracker [check_lost] returns
    the empty list. *)
Theorem operations_total_and_safe (t : DeviceTracker) (o : op) :
  reachable t ->
  (exists t' evs,
      exec o t = (t', Ok evs)
      /\ reachable t'
      /\ wf t'
      /\ grace t' = grace t /\ weak_grace t' = weak_grace t
      /\ (forall e, In e evs -> justified t o e)
      /\ forall a, (List.length (events_for a evs) <= 1)%nat)
  /\ forall now g wg, check_lost now (init g wg) = (init g wg, Ok []).
Proof.
  intros Hr. split; [|reflexivity].
  pose proof (reachable_exec o t Hr) as Hr'.
  destruct (exec_ok o t (reachable_wf t Hr))
    as (t' & evs & E & Hwf & Hg & Hwg & L).
  rewrite E in Hr'. exists t', evs. do 5 (split; [assumption|]). split.
  - intros e He. apply step_record_justified.
    destruct (L (Event.mac e)) as [_ V]. rewrite <- V.
    now apply In_events_for.
  - intros a. destruct (L a) as [_ V]. rewrite V.
    apply step_record_at_most_one.
Qed.

Lemma operations_total_and_safe_witness :
  reachable confirmed_tracker
  /\ exists t' evs,
      exec (CheckLost (base + seconds 11)) confirmed_tracker = (t', Ok evs)
      /\ reachable t'
      /\ wf t'
      /\ grace t' = grace confirmed_tracker
      /\ weak_grace t' = weak_grace confirmed_tracker
      /\ (forall e, In e evs ->
                    justified confirmed_tracker (CheckLost (base + seconds 11)) e)
      /\ forall a, (List.length (events_for a evs) <= 1)%nat.
Proof.
  assert (H1 : reachable confirmed_tracker).
  { exact (reachable_run (scan_ops [obs_test] ++ scan_ops [obs_test])
             (init 10 20) (reachable_init 10 20)). }
  split; [exact H1|].
  exact (proj1 (operations_total_and_safe confirmed_tracker
                  (CheckLost (base + seconds 11)) H1)).
Defined.

(** ** The timestamp of a record *)

(** C9 (["last_seen"] is always there): [update] leaves the observation's
    timestamp in the record it creates or updates, and in every tracker
    reached by calls of the four methods every record has its timestamp;
    so the loop of [check_lost] never takes its [last is None] branch. *)
Theorem last_seen_always_set
    (t : DeviceTracker) (a : string) (i : Info.t) (obs : Observation.t)
    (now : Z) :
  reachable t ->
  lookup a (devices t) = Some i ->
  (exists last, Info.last_seen i = Some last)
  /\ judge (grace t) (weak_grace t) now a i <> Skip
  /\ exists i',
      lookup (Observation.mac obs) (devices (update obs t)) = Some i'
      /\ Info.last_seen i' = Some (Observation.timestamp obs).
Proof.
  intros Hr Hl. apply reachable_wf in Hr. destruct Hr as [_ Hc].
  rewrite Forall_forall in Hc.
  destruct (Hc (a, i) (lookup_Some_In a _ i Hl)) as [Hlast _]. simpl in Hlast.
  split; [|split].
  - destruct (Info.last_seen i) as [last|]; [now exists last | congruence].
  - unfold judge. destruct (Info.last_seen i); [|congruence].
    destruct (total_seconds_gt _ _); discriminate.
  - simpl. rewrite lookup_update_dict_eq. eexists. split; reflexivity.
Qed.

Lemma last_seen_always_set_witness :
  reachable confirmed_tracker
  /\ lookup "AA:BB:CC:DD:EE:01" (devices confirmed_tracker) = Some confirmed_info
  /\ (exists last, Info.last_seen confirmed_info = Some last)
  /\ judge (grace confirmed_tracker) (weak_grace confirmed_tracker)
           (base + seconds 11) "AA:BB:CC:DD:EE:01" confirmed_info <> Skip
  /\ exists i',
      lookup (Observation.mac obs_weak)
             (devices (update obs_weak confirmed_tracker)) = Some i'
      /\ Info.last_seen i' = Some (Observation.timestamp obs_weak).
Proof.
  assert (H1 : reachable confirmed_tracker).
  { exact (reachable_run (scan_ops [obs_test] ++ scan_ops [obs_test])
             (init 10 20) (reachable_init 10 20)). }
  assert (H2 : lookup "AA:BB:CC:DD:EE:01" (devices confirmed_tracker)
               = Some confirmed_info) by reflexivity.
  repeat (split; [assumption|]).
  exact (last_seen_always_set confirmed_tracker "AA:BB:CC:DD:EE:01"
           confirmed_info obs_weak (base + seconds 11) H1 H2).
Defined.

(** ** What [update] leaves alone *)

Lemma alter_refresh_twice (o o' : Observation.t) (k : string) (d : dict) :
  alter (refresh o') k (alter (refresh o) k d) = alter (refresh o') k d.
Proof.
  induction d as [|[k' v] d IH]; simpl; [reflexivity|].
  destruct (String.eqb k' k) eqn:E; simpl; rewrite E; [reflexivity|].
  now rewrite IH.
Qed.

(** C10 (frame of [update]): on an address that has a record, [update]
    overwrites the timestamp, signal strength, name, address type and
    seen flag of that record and nothing else: the hit count and the
    confirmed flag stay, every other record stays, the keys and their order
    stay, the grace periods stay.  A second [update] for the same address
    makes the first one unobservable, so two observations in one scan count
    as one hit. *)
Theorem update_frame
    (t : DeviceTracker) (obs obs' : Observation.t) (i : Info.t) :
  lookup (Observation.mac obs) (devices t) = Some i ->
  Observation.mac obs' = Observation.mac obs ->
  lookup (Observation.mac obs) (devices (update obs t)) =
    Some (Info.mk (Info.consecutive i) (Observation.rssi obs)
                  (Observation.name obs) (Observation.address_type obs)
                  (Info.active i) (Some (Observation.timestamp obs))
                  (Some true))
  /\ (forall k, k <> Observation.mac obs ->
                lookup k (devices (update obs t)) = lookup k (devices t))
  /\ keys (devices (update obs t)) = keys (devices t)
  /\ grace (update obs t) = grace t
  /\ weak_grace (update obs t) = weak_grace t
  /\ update obs' (update obs t) = update obs' t
  /\ finalize_scan (update obs' (update obs t)) = finalize_scan (update obs' t).
Proof.
  intros Hl Hmac.
  assert (Htwice : update obs' (update obs t) = update obs' t).
  { unfold update, with_devices. simpl. f_equal.
    rewrite (update_dict_cases obs'), Hmac, lookup_update_dict_eq.
    rewrite (update_dict_cases obs), Hl.
    rewrite (update_dict_cases obs'), Hmac, Hl.
    apply alter_refresh_twice. }
  split; [|split; [|split; [|split; [|split; [|split]]]]].
  - simpl. now rewrite lookup_update_dict_eq, Hl.
  - intros k Hk. simpl. apply lookup_update_dict_ne. congruence.
  - simpl. now rewrite keys_update_dict, Hl.
  - reflexivity.
  - reflexivity.
  - exact Htwice.
  - now rewrite Htwice.
Qed.

Lemma update_frame_witness :
  lookup (Observation.mac obs_test) (devices confirmed_tracker)
  = Some confirmed_info
  /\ Observation.mac obs_test = Observation.mac obs_test
  /\ lookup (Observation.mac obs_test)
            (devices (update obs_test confirmed_tracker)) =
       Some (Info.mk 2 (-50) "Test" "public" true (Some base) (Some true))
  /\ update obs_test (update obs_test confirmed_tracker)
     = update obs_test confirmed_tracker.
Proof.
  assert (H1 : lookup (Observation.mac obs_test) (devices confirmed_tracker)
               = Some confirmed_info) by reflexivity.
  assert (H2 : Observation.mac obs_test = Observation.mac obs_test)
    by reflexivity.
  destruct (update_frame confirmed_tracker obs_test obs_test confirmed_info
              H1 H2) as (K1 & _ & _ & _ & _ & K2 & _).
  exact (conj H1 (conj H2 (conj K1 K2))).
Defined.

(** * More about the tracker and its loop *)

(** X6 (LOST without NEW): with grace periods below [2^33] seconds, an
    address with no record that is observed in one round of the loop, and
    whose last observation in that round is older than its grace period
    when [check_lost] runs at the end of the round, gets a LOST event
    although no NEW event was ever returned for it; the round leaves no
    record of it. *)
Theorem lost_without_new
    (t : DeviceTracker) (a : string) (obss : list Observation.t)
    (o : Observation.t) (now : Z) :
  wf t ->
  exact_graces t ->
  lookup a (devices t) = None ->
  last_obs a obss = Some o ->
  seconds (if Observation.rssi o <? -90 then weak_grace t else grace t)
    < now - Observation.timestamp o ->
  exists t' evs,
    run (cycle_ops obss now) t = (t', Ok evs)
    /\ events_for a evs =
         [Event.mk LOST a (Observation.name o) (Observation.rssi o)]
    /\ lookup a (devices t') = None.
Proof.
  intros Hwf _ Hnone Hlast Hold.
  destruct (run_ok (cycle_ops obss now) t Hwf) as (t' & evs & E & _ & _ & _ & L).
  exists t', evs. split; [exact E|].
  destruct (L a) as [R V]. rewrite R, V, Hnone. clear R V L E.
  unfold cycle_ops. rewrite steps_record_app, steps_scan_ops.
  unfold scan_record, observe_all. simpl. rewrite Hlast. simpl.
  unfold judge. simpl.
  apply total_seconds_gt_true in Hold. rewrite Hold. simpl. auto.
Qed.

Lemma lost_without_new_witness :
  wf (init 10 20)
  /\ exact_graces (init 10 20)
  /\ lookup "AA:BB:CC:DD:EE:01" (devices (init 10 20)) = None
  /\ last_obs "AA:BB:CC:DD:EE:01" [obs_test] = Some obs_test
  /\ seconds (if Observation.rssi obs_test <? -90
              then weak_grace (init 10 20) else grace (init 10 20))
     < (base + seconds 11) - Observation.timestamp obs_test
  /\ exists t' evs,
      run (cycle_ops [obs_test] (base + seconds 11)) (init 10 20) = (t', Ok evs)
      /\ events_for "AA:BB:CC:DD:EE:01" evs =
           [Event.mk LOST "AA:BB:CC:DD:EE:01" "Test" (-50)]
      /\ lookup "AA:BB:CC:DD:EE:01" (devices t') = None.
Proof.
  assert (H1 : wf (init 10 20)) by apply wf_init.
  assert (H0 : exact_graces (init 10 20)) by (split; simpl; lia).
  assert (H2 : lookup "AA:BB:CC:DD:EE:01" (devices (init 10 20)) = None)
    by reflexivity.
  assert (H3 : last_obs "AA:BB:CC:DD:EE:01" [obs_test] = Some obs_test)
    by reflexivity.
  assert (H4 : seconds (if Observation.rssi obs_test <? -90
                        then weak_grace (init 10 20) else grace (init 10 20))
               < (base + seconds 11) - Observation.timestamp obs_test)
    by (vm_compute; reflexivity).
  exact (conj H1 (conj H0 (conj H2 (conj H3 (conj H4
           (lost_without_new (init 10 20) "AA:BB:CC:DD:EE:01" [obs_test]
              obs_test (base + seconds 11) H1 H0 H2 H3 H4)))))).
Defined.

Lemma filter_filter_weaker {A : Type} (P Q : A -> bool) (l : list A) :
  (forall x, P x = true -> Q x = true) ->
  filter Q (filter P l) = filter P l.
Proof.
  intros H. induction l as [|x l IH]; simpl; [reflexivity|].
  destruct (P x) eqn:E; simpl; [|exact IH].
  now rewrite (H x E), IH.
Qed.

Lemma stays_earlier (g wg now earlier : Z) (p : string * Info.t) :
  earlier <= now -> stays g wg now p = true -> stays g wg earlier p = true.
Proof.
  unfold stays, judge. intros Hle.
  destruct (Info.last_seen (snd p)) as [last|]; [|reflexivity].
  destruct (total_seconds_gt (now - last) _) eqn:E1; [discriminate|].
  intros _. apply total_seconds_gt_false in E1.
  destruct (total_seconds_gt (earlier - last) _) eqn:E2; [|reflexivity].
  apply total_seconds_gt_true in E2. lia.
Qed.

Lemma stays_no_events (g wg now earlier : Z) (d : dict) :
  earlier <= now ->
  flat_map (lost_events g wg earlier) (filter (stays g wg now) d) = [].
Proof.
  intros Hle. induction d as [|p d IH]; simpl; [reflexivity|].
  destruct (stays g wg now p) eqn:E; simpl; [|exact IH].
  rewrite IH. apply (stays_earlier g wg now earlier p Hle) in E.
  unfold stays, lost_events in *.
  now destruct (judge g wg earlier (fst p) (snd p)).
Qed.

(** X7 ([check_lost] settles): once [check_lost] has run at some time, a
    second run at that time or at any earlier one returns the empty list
    and leaves the tracker exactly as it is. *)
Theorem check_lost_settles (t : DeviceTracker) (now earlier : Z) :
  wf t ->
  earlier <= now ->
  exists t1 evs,
    check_lost now t = (t1, Ok evs)
    /\ check_lost now t1 = (t1, Ok [])
    /\ check_lost earlier t1 = (t1, Ok []).
Proof.
  intros Hwf Hle. destruct t as [d g wg].
  pose proof (check_lost_ok now _ Hwf) as E0. simpl in E0.
  assert (Hwf1 : wf (mkTracker (filter (stays g wg now) d) g wg))
    by (apply wf_dict_filter, Hwf).
  pose proof (check_lost_ok now _ Hwf1) as E1.
  pose proof (check_lost_ok earlier _ Hwf1) as E2.
  unfold with_devices in *. simpl in *.
  rewrite stays_no_events in E1 by lia.
  rewrite stays_no_events in E2 by exact Hle.
  rewrite filter_filter_weaker in E1 by auto.
  rewrite filter_filter_weaker in E2
    by (intros x; apply stays_earlier, Hle).
  eexists _, _. split; [exact E0|]. split; assumption.
Qed.

Lemma check_lost_settles_witness :
  wf confirmed_tracker
  /\ base <= base + seconds 11
  /\ exists t1 evs,
      check_lost (base + seconds 11) confirmed_tracker = (t1, Ok evs)
      /\ check_lost (base + seconds 11) t1 = (t1, Ok [])
      /\ check_lost base t1 = (t1, Ok []).
Proof.
  assert (H1 : wf confirmed_tracker) by (apply wfb_wf; reflexivity).
  assert (H2 : base <= base + seconds 11) by (vm_compute; discriminate).
  exact (conj H1 (conj H2
           (check_lost_settles confirmed_tracker (base + seconds 11) base
              H1 H2))).
Defined.

(** X8 (a scan only touches what it observes): the NEW events of a scan
    are all about addresses observed in that scan, so a scan without
    observations returns none; and the record of an address that the scan
    does not observe comes out with its hit count at 0 and its seen flag
    cleared, otherwise unchanged. *)
Theorem scan_touches_observed_only
    (t : DeviceTracker) (obss : list Observation.t) :
  wf t ->
  exists t' evs,
    scan obss t = (t', Ok evs)
    /\ (forall e, In e evs -> In (Event.mac e) (map Observation.mac obss))
    /\ (obss = [] -> evs = [])
    /\ forall a,
        ~ In a (map Observation.mac obss) ->
        lookup a (devices t') = option_map missed (lookup a (devices t)).
Proof.
  intros Hwf.
  destruct (scan_local obss t Hwf) as (t' & evs & E & _ & _ & _ & L).
  exists t', evs. split; [exact E|].
  assert (Hev : forall e, In e evs ->
                          In (Event.mac e) (map Observation.mac obss)).
  { intros e He.
    destruct (in_dec string_dec (Event.mac e) (map Observation.mac obss))
      as [Hin|Hn]; [exact Hin|].
    exfalso. apply last_obs_None in Hn.
    assert (Hin : In e (events_for (Event.mac e) evs))
      by now apply In_events_for.
    destruct (L (Event.mac e)) as [_ V].
    now rewrite V, scan_record_unobserved in Hin. }
  split; [exact Hev|]. split.
  - intros ->. destruct evs as [|e evs]; [reflexivity|].
    destruct (Hev e (or_introl eq_refl)).
  - intros a Hn. apply last_obs_None in Hn.
    destruct (L a) as [R _]. rewrite R.
    unfold scan_record, observe_all. rewrite Hn.
    now destruct (lookup a (devices t)).
Qed.

Lemma scan_touches_observed_only_witness :
  wf confirmed_tracker
  /\ exists t' evs,
      scan [] confirmed_tracker = (t', Ok evs)
      /\ (forall e, In e evs -> In (Event.mac e) (map Observation.mac []))
      /\ (@nil Observation.t = [] -> evs = [])
      /\ forall a,
          ~ In a (map Observation.mac []) ->
          lookup a (devices t')
          = option_map missed (lookup a (devices confirmed_tracker)).
Proof.
  assert (H1 : wf confirmed_tracker) by (apply wfb_wf; reflexivity).
  exact (conj H1 (scan_touches_observed_only confirmed_tracker [] H1)).
Defined.

Lemma hits_step (g wg : Z) (a : string) (o : op) (r : option Info.t) :
  (forall i, r = Some i -> hits_in_step i) ->
  forall i', fst (step_record g wg a o r) = Some i' -> hits_in_step i'.
Proof.
  intros Hr i'. destruct o as [|obs| |now]; simpl.
  - destruct r as [i|]; simpl; [|discriminate].
    intros [= <-]. exact (Hr i eq_refl).
  - destruct (String.eqb (Observation.mac obs) a); simpl; [|apply Hr].
    intros [= <-]. destruct r as [i|]; simpl.
    + exact (Hr i eq_refl).
    + unfold hits_in_step. simpl. lia.
  - destruct r as [i|]; simpl; [|discriminate].
    intros [= <-]. destruct (Hr i eq_refl) as [H0 H1].
    unfold fin_info, finalize_one, hits_in_step. simpl.
    destruct (Info.seen i) as [[|]|]; simpl; [| lia | auto].
    destruct (Info.active i) eqn:Ha; simpl.
    + rewrite Ha. split; [lia | discriminate].
    + specialize (H1 eq_refl).
      destruct (2 <=? Info.consecutive i + 1) eqn:Hc; simpl.
      * split; [lia | discriminate].
      * apply Z.leb_gt in Hc. rewrite Ha. split; [lia | intros _; lia].
  - destruct r as [i|]; simpl; [|discriminate].
    destruct (judge g wg now a i); simpl; try discriminate;
      intros [= <-]; exact (Hr i eq_refl).
Qed.

(** X9 (hit counts): in every tracker reached by calls of the four
    methods, the hit count of a record is never negative, and a record that
    is not confirmed has at most one hit: two hits always come with the
    confirmed flag. *)
Theorem hits_invariant (t : DeviceTracker) (a : string) (i : Info.t) :
  reachable t ->
  lookup a (devices t) = Some i ->
  0 <= Info.consecutive i
  /\ (Info.active i = false -> Info.consecutive i <= 1)
  /\ (2 <= Info.consecutive i -> Info.active i = true).
Proof.
  intros Hr. revert a i.
  assert (H : forall a i, lookup a (devices t) = Some i -> hits_in_step i).
  { induction Hr as [g wg|o t Hr IH]; intros a i; [discriminate|].
    destruct (exec_ok o t (reachable_wf t Hr)) as (t' & evs & E & _ & _ & _ & L).
    rewrite E. simpl. destruct (L a) as [R _]. rewrite R.
    apply hits_step. intros i0 Hi0. now apply (IH a). }
  intros a i Hl. destruct (H a i Hl) as [H0 H1].
  split; [exact H0|]. split; [exact H1|].
  intros H2. destruct (Info.active i); [reflexivity|].
  specialize (H1 eq_refl). lia.
Qed.

Lemma hits_invariant_witness :
  reachable confirmed_tracker
  /\ lookup "AA:BB:CC:DD:EE:01" (devices confirmed_tracker) = Some confirmed_info
  /\ 0 <= Info.consecutive confirmed_info
  /\ (Info.active confirmed_info = false -> Info.consecutive confirmed_info <= 1)
  /\ (2 <= Info.consecutive confirmed_info -> Info.active confirmed_info = true).
Proof.
  assert (H1 : reachable confirmed_tracker).
  { exact (reachable_run (scan_ops [obs_test] ++ scan_ops [obs_test])
             (init 10 20) (reachable_init 10 20)). }
  assert (H2 : lookup "AA:BB:CC:DD:EE:01" (devices confirmed_tracker)
               = Some confirmed_info) by reflexivity.
  exact (conj H1 (conj H2
           (hits_invariant confirmed_tracker "AA:BB:CC:DD:EE:01"
              confirmed_info H1 H2))).
Defined.

(** * The simulated scanner *)

(** ** Addresses *)

Lemma upper_hex_inj (d d' : Hexadecimal.uint) :
  upper_hex d = upper_hex d' -> d = d'.
Proof.
  revert d'. induction d as [|d IH|d IH|d IH|d IH|d IH|d IH|d IH|d IH|d IH
                             |d IH|d IH|d IH|d IH|d IH|d IH|d IH];
    intros d'; destruct d'; simpl; intros H;
    try discriminate H; try reflexivity;
    injection H as H; f_equal; now apply IH.
Qed.

Lemma of_hex_uint_D0 (d : Hexadecimal.uint) :
  N.of_hex_uint (Hexadecimal.D0 d) = N.of_hex_uint d.
Proof.
  rewrite <- (HexadecimalN.Unsigned.of_uint_norm (Hexadecimal.D0 d)).
  rewrite <- (HexadecimalN.Unsigned.of_uint_norm d).
  reflexivity.
Qed.

(** The two characters or more of [format_02X n] are hexadecimal digits
    that read back as [n]. *)
Lemma format_02X_digits (n : N) :
  exists d, format_02X n = upper_hex d /\ N.of_hex_uint d = n.
Proof.
  unfold format_02X.
  pose proof (HexadecimalN.Unsigned.of_to n) as Hn.
  destruct (upper_hex (N.to_hex_uint n)) as [|c [|c' s]] eqn:E.
  - exists (N.to_hex_uint n). now rewrite E.
  - exists (Hexadecimal.D0 (N.to_hex_uint n)).
    split; [simpl; now rewrite E | rewrite of_hex_uint_D0; exact Hn].
  - exists (N.to_hex_uint n). now rewrite E.
Qed.

Lemma format_02X_inj (n m : N) : format_02X n = format_02X m -> n = m.
Proof.
  destruct (format_02X_digits n) as (d & -> & <-).
  destruct (format_02X_digits m) as (d' & -> & <-).
  intros H. now rewrite (upper_hex_inj d d' H).
Qed.

Lemma mac_of_counter_inj (n m : N) :
  mac_of_counter n = mac_of_counter m -> n = m.
Proof.
  unfold mac_of_counter. simpl. intros H. injection H as H.
  now apply format_02X_inj.
Qed.

(** X10 ([_new_mac] never repeats itself): two different values of the
    counter give two different addresses, however large the counter has
    grown; an address is the fixed prefix followed by the counter in
    hexadecimal. *)
Theorem new_mac_never_repeats (n m : N) :
  n <> m ->
  mac_of_counter n <> mac_of_counter m
  /\ String.prefix "02:00:00:00:00:" (mac_of_counter n) = true.
Proof.
  intros Hne. split.
  - intros H. apply Hne. now apply mac_of_counter_inj.
  - unfold mac_of_counter. simpl. now destruct (format_02X n).
Qed.

Lemma new_mac_never_repeats_witness :
  1%N <> 257%N
  /\ mac_of_counter 1 = "02:00:00:00:00:01"
  /\ mac_of_counter 257 = "02:00:00:00:00:101"
  /\ mac_of_counter 1 <> mac_of_counter 257.
Proof.
  assert (H : 1%N <> 257%N) by discriminate.
  exact (conj H (conj eq_refl (conj eq_refl
           (proj1 (new_mac_never_repeats 1 257 H))))).
Defined.

Lemma short_counters_ok : forallb short_counter_ok (seq 0 256) = true.
Proof. vm_compute. reflexivity. Qed.

Lemma two_digits_below_256 (d : Hexadecimal.uint) :
  String.length (upper_hex d) = 2%nat -> (N.of_hex_uint d < 256)%N.
Proof.
  intros H.
  destruct d as [|d|d|d|d|d|d|d|d|d|d|d|d|d|d|d|d]; simpl in H;
    try discriminate H;
    (destruct d as [|d|d|d|d|d|d|d|d|d|d|d|d|d|d|d|d]; simpl in H;
     try discriminate H;
     (destruct d; simpl in H; try discriminate H; vm_compute; reflexivity)).
Qed.

Lemma length_mac_of_counter (n : N) :
  String.length (mac_of_counter n) = (15 + String.length (format_02X n))%nat.
Proof. reflexivity. Qed.

(** X11 (room for 255 devices): the address of counter [n] has the 17
    characters of a Bluetooth address exactly when [n] is below 256; up to
    there the name of the device is ["Sim"] followed by the two digits of
    the counter, so names differ as addresses do. *)
Theorem address_shape (n m : N) :
  (String.length (mac_of_counter n) = 17%nat <-> (n < 256)%N)
  /\ ((n < 256)%N -> sim_name n = String.append "Sim" (format_02X n))
  /\ ((n < 256)%N -> (m < 256)%N -> sim_name n = sim_name m -> n = m).
Proof.
  assert (Hshort : forall k, (k < 256)%N ->
            String.length (mac_of_counter k) = 17%nat
            /\ sim_name k = String.append "Sim" (format_02X k)).
  { intros k Hk.
    pose proof short_counters_ok as H. rewrite forallb_forall in H.
    assert (Hin : In (N.to_nat k) (seq 0 256)) by (apply in_seq; lia).
    apply H in Hin. unfold short_counter_ok in Hin. rewrite N2Nat.id in Hin.
    apply andb_prop in Hin as [H1 H2].
    apply Nat.eqb_eq in H1. apply String.eqb_eq in H2. auto. }
  split; [split|split].
  - intros H. rewrite length_mac_of_counter in H.
    destruct (format_02X_digits n) as (d & Hd & <-).
    apply two_digits_below_256. rewrite <- Hd. lia.
  - intros H. apply (Hshort n H).
  - intros H. apply (Hshort n H).
  - intros Hn Hm. rewrite (proj2 (Hshort n Hn)), (proj2 (Hshort m Hm)).
    simpl. intros H. injection H as H. now apply format_02X_inj.
Qed.

(** Past 255 names come round again while addresses do not. *)
Example name_of_257_is_name_of_1 :
  sim_name 257 = sim_name 1 /\ mac_of_counter 257 <> mac_of_counter 1.
Proof. split; [reflexivity | discriminate]. Qed.

(** ** [generate] *)

Lemma generate_loop_spec {rng : Type} {G : RandomGen rng} (ts : Z)
    (entries : list (string * SimInfo.t)) :
  forall r : rng,
    snd (generate_loop ts entries r)
    = map (sim_observation ts) (snd (fst (generate_loop ts entries r)))
    /\ (forall k, In k (map fst (snd (fst (generate_loop ts entries r)))) ->
                  In k (map fst entries))
    /\ (NoDup (map fst entries) ->
        NoDup (map fst (snd (fst (generate_loop ts entries r))))).
Proof.
  induction entries as [|[mac info] rest IH]; intros r; simpl.
  - repeat split; [tauto | constructor].
  - destruct (random_below 10 r) as [gone r1].
    destruct gone.
    + destruct (IH r1) as (H1 & H2 & H3).
      split; [exact H1|]. split; [intros k Hk; right; now apply H2|].
      intros Hnd. apply H3. now inversion Hnd.
    + destruct (randint (-2) 2 r1) as [delta r2].
      destruct (IH r2) as (H1 & H2 & H3).
      destruct (generate_loop ts rest r2) as [[r3 rest'] obss]. simpl in *.
      split; [now rewrite H1|].
      split; [intros k [Hk|Hk]; [now left | right; now apply H2]|].
      intros Hnd. inversion Hnd as [|? ? Hn Hnd']; subst.
      constructor; [|now apply H3].
      intros Hin. apply Hn. now apply H2.
Qed.

Lemma set_item_fresh (mac : string) (info : SimInfo.t)
    (d : list (string * SimInfo.t)) :
  ~ In mac (map fst d) -> set_item mac info d = d ++ [(mac, info)].
Proof.
  induction d as [|[k v] d IH]; simpl; intros Hn; [reflexivity|].
  destruct (String.eqb_spec k mac) as [->|Hne]; [exfalso; now apply Hn; left|].
  rewrite IH; [reflexivity|]. intros H. apply Hn. now right.
Qed.

Lemma fresh_counter {rng : Type} (s : SimulatedScanner rng)
    (act : list (string * SimInfo.t)) :
  sim_wf s ->
  (forall k, In k (map fst act) -> In k (map fst (active s))) ->
  ~ In (mac_of_counter (counter s + 1)) (map fst act).
Proof.
  intros [_ Hk] Hsub Hin.
  destruct (Hk _ (Hsub _ Hin)) as (k & Hrange & Hmac).
  apply mac_of_counter_inj in Hmac. lia.
Qed.

Lemma generate_reports_active_aux {rng : Type} {G : RandomGen rng} (ts : Z)
    (s : SimulatedScanner rng) :
  sim_wf s ->
  sim_wf (fst (generate ts s))
  /\ snd (generate ts s)
     = map (sim_observation ts) (active (fst (generate ts s)))
  /\ (counter s <= counter (fst (generate ts s)) <= counter s + 1)%N
  /\ forall mac, In mac (map fst (active (fst (generate ts s)))) ->
       In mac (map fst (active s))
       \/ (mac = mac_of_counter (counter s + 1)
           /\ counter (fst (generate ts s)) = (counter s + 1)%N).
Proof.
  intros Hwf.
  unfold generate.
  destruct (generate_loop_spec ts (active s) (random s)) as (H1 & H2 & H3).
  destruct (generate_loop ts (active s) (random s)) as [[r1 act] obss].
  simpl in H1, H2, H3.
  destruct (random_below 30 r1) as [add r2]. destruct add.
  - unfold new_mac. simpl.
    destruct (randint (-80) (-40) r2) as [rssi r3]. simpl.
    pose proof (fresh_counter s act Hwf H2) as Hfresh.
    rewrite (set_item_fresh _ _ _ Hfresh).
    destruct Hwf as [Hnd Hk].
    split; [split|split; [|split]]; simpl.
    + rewrite map_app. simpl. apply NoDup_app; [now apply H3 | | ].
      * repeat constructor. simpl. tauto.
      * intros x Hx [<-|[]]. contradiction.
    + intros mac Hin. rewrite map_app, in_app_iff in Hin. simpl in Hin.
      destruct Hin as [Hin|[<-|[]]].
      * destruct (Hk mac (H2 mac Hin)) as (k & Hr & ->).
        exists k. split; [lia | reflexivity].
      * exists (counter s + 1)%N. split; [lia | reflexivity].
    + rewrite map_app, H1. reflexivity.
    + lia.
    + intros mac Hin. rewrite map_app, in_app_iff in Hin. simpl in Hin.
      destruct Hin as [Hin|[<-|[]]]; [left; now apply H2 | right; auto].
  - simpl. destruct Hwf as [Hnd Hk].
    split; [split|split; [|split]]; simpl.
    + now apply H3.
    + intros mac Hin. apply Hk, H2, Hin.
    + exact H1.
    + lia.
    + intros mac Hin. left. now apply H2.
Qed.

(** X12 ([generate] reports what is active): when the addresses held by
    the simulator are distinct addresses of counters handed out so far,
    they still are after [generate]; the observations returned are, in
    order, one per device active after the call, with its address, name and
    signal strength, so no address is observed twice in a scan; the counter
    grows by one at most, and a device that was not active before carries
    the address of the new counter. *)
Theorem generate_reports_active {rng : Type} {G : RandomGen rng} (ts : Z)
    (s : SimulatedScanner rng) :
  sim_wf s ->
  sim_wf (fst (generate ts s))
  /\ snd (generate ts s)
     = map (sim_observation ts) (active (fst (generate ts s)))
  /\ NoDup (map Observation.mac (snd (generate ts s)))
  /\ (counter s <= counter (fst (generate ts s)) <= counter s + 1)%N
  /\ forall mac, In mac (map fst (active (fst (generate ts s)))) ->
       In mac (map fst (active s))
       \/ (mac = mac_of_counter (counter s + 1)
           /\ counter (fst (generate ts s)) = (counter s + 1)%N).
Proof.
  intros Hwf.
  destruct (generate_reports_active_aux ts s Hwf) as (K1 & K2 & K3 & K4).
  split; [exact K1|]. split; [exact K2|]. split; [|split; assumption].
  rewrite K2, map_map. simpl. exact (proj1 K1).
Qed.

Lemma generate_reports_active_witness :
  sim_wf sim_start
  /\ snd (generate base sim_start)
     = [Observation.mk base "02:00:00:00:00:01" "Sim01" "public" (-63)]
  /\ sim_wf (fst (generate base sim_start))
  /\ NoDup (map Observation.mac (snd (generate base sim_start))).
Proof.
  assert (H : sim_wf sim_start).
  { split; simpl; [constructor | tauto]. }
  destruct (generate_reports_active base sim_start H) as (K1 & _ & K2 & _).
  exact (conj H (conj eq_refl (conj K1 K2))).
Defined.

Lemma generate_loop_drift {rng : Type} {G : RandomGen rng} (ts : Z)
    (entries : list (string * SimInfo.t)) :
  randint_in_range G ->
  forall (r : rng) k i',
    In (k, i') (snd (fst (generate_loop ts entries r))) ->
    exists i, In (k, i) entries
              /\ SimInfo.name i' = SimInfo.name i
              /\ -2 <= SimInfo.rssi i' - SimInfo.rssi i <= 2.
Proof.
  intros Hlaw. induction entries as [|[mac info] rest IH]; intros r k i'; simpl.
  - tauto.
  - destruct (random_below 10 r) as [gone r1]. destruct gone.
    + intros Hin. destruct (IH r1 k i' Hin) as (i & Hi & H).
      exists i. split; [now right | exact H].
    + pose proof (Hlaw (-2) 2 r1 ltac:(lia)) as Hd.
      destruct (randint (-2) 2 r1) as [delta r2]. simpl in Hd.
      specialize (IH r2 k i').
      destruct (generate_loop ts rest r2) as [[r3 rest'] obss]. simpl in *.
      intros [Hin|Hin].
      * injection Hin as <- <-. exists info. simpl.
        split; [now left|]. split; [reflexivity | lia].
      * destruct (IH Hin) as (i & Hi & H).
        exists i. split; [now right | exact H].
Qed.

Lemma In_set_item (mac : string) (info : SimInfo.t)
    (d : list (string * SimInfo.t)) (p : string * SimInfo.t) :
  In p (set_item mac info d) -> In p d \/ p = (mac, info).
Proof.
  induction d as [|[k v] d IH]; simpl.
  - intros [<-|[]]. now right.
  - destruct (String.eqb_spec k mac) as [->|Hne]; simpl.
    + intros [<-|H]; [now right | left; now right].
    + intros [<-|H]; [left; now left|].
      destruct (IH H) as [H'|H']; [left; now right | now right].
Qed.

(** X13 (signal strengths of the simulator): with a [randint] that stays
    within its bounds, every device active after [generate] either was
    active before, under the same name and with a signal strength moved by
    at most 2, or is the device of the new counter, named after its
    address, with a signal strength between -80 and -40. *)
Theorem generate_signal_bounds {rng : Type} {G : RandomGen rng} (ts : Z)
    (s : SimulatedScanner rng) (mac : string) (info' : SimInfo.t) :
  randint_in_range G ->
  In (mac, info') (active (fst (generate ts s))) ->
  (exists info, In (mac, info) (active s)
                /\ SimInfo.name info' = SimInfo.name info
                /\ -2 <= SimInfo.rssi info' - SimInfo.rssi info <= 2)
  \/ (mac = mac_of_counter (counter s + 1)
      /\ SimInfo.name info' = sim_name (counter s + 1)
      /\ -80 <= SimInfo.rssi info' <= -40).
Proof.
  intros Hlaw. unfold generate.
  pose proof (generate_loop_drift ts (active s) Hlaw (random s) mac info')
    as Hdrift.
  destruct (generate_loop ts (active s) (random s)) as [[r1 act] obss].
  simpl in Hdrift.
  destruct (random_below 30 r1) as [add r2]. destruct add.
  - unfold new_mac. simpl.
    pose proof (Hlaw (-80) (-40) r2 ltac:(lia)) as Hr.
    destruct (randint (-80) (-40) r2) as [rssi r3]. simpl in *.
    intros Hin. apply In_set_item in Hin as [Hin|Hin].
    + left. now apply Hdrift.
    + right. injection Hin as -> ->. simpl. auto.
  - simpl. intros Hin. left. now apply Hdrift.
Qed.

Lemma tape_gen_in_range : randint_in_range tape_gen.
Proof.
  intros a b r Hab. destruct r as [|x r]; simpl; [lia|].
  pose proof (Z.mod_pos_bound x (b - a + 1) ltac:(lia)). lia.
Qed.

Lemma generate_signal_bounds_witness :
  randint_in_range tape_gen
  /\ In ("02:00:00:00:00:01", SimInfo.mk "Sim01" (-63))
        (active (fst (generate base sim_start)))
  /\ "02:00:00:00:00:01" = mac_of_counter (counter sim_start + 1)
  /\ -80 <= -63 <= -40.
Proof.
  assert (H1 : randint_in_range tape_gen) by exact tape_gen_in_range.
  assert (H2 : In ("02:00:00:00:00:01", SimInfo.mk "Sim01" (-63))
                  (active (fst (generate base sim_start))))
    by (simpl; left; reflexivity).
  destruct (generate_signal_bounds base sim_start _ _ H1 H2)
    as [(info & [] & _)|(K1 & _ & K2)].
  exact (conj H1 (conj H2 (conj K1 K2))).
Defined.

Lemma generates_gone {rng : Type} {G : RandomGen rng} (mac : string)
    (tss : list Z) :
  forall (s : SimulatedScanner rng) (k : N),
    sim_wf s ->
    (1 <= k <= counter s)%N ->
    mac = mac_of_counter k ->
    ~ In mac (map fst (active s)) ->
    ~ In mac (map fst (active (fst (generates tss s))))
    /\ forall obss, In obss (snd (generates tss s)) ->
                    ~ In mac (map Observation.mac obss).
Proof.
  induction tss as [|ts tss IH]; intros s k Hwf Hk Hmac Hgone; simpl.
  - split; [exact Hgone | tauto].
  - destruct (generate_reports_active_aux ts s Hwf) as (Hwf1 & Hobs & Hc & Hnew).
    destruct (generate ts s) as [s1 obss1]. simpl in *.
    assert (Hgone1 : ~ In mac (map fst (active s1))).
    { intros Hin. destruct (Hnew mac Hin) as [H|[H _]]; [contradiction|].
      rewrite Hmac in H. apply mac_of_counter_inj in H. lia. }
    destruct (IH s1 k Hwf1 ltac:(lia) Hmac Hgone1) as [H1 H2].
    destruct (generates tss s1) as [s2 rest]. simpl in *.
    split; [exact H1|].
    intros obss [<-|Hin]; [|now apply H2].
    rewrite Hobs, map_map. exact Hgone1.
Qed.

(** X14 (gone for good): an address that the simulator has handed out and
    no longer holds is never held nor observed again, however many times
    [generate] is called. *)
Theorem simulated_device_never_returns {rng : Type} {G : RandomGen rng}
    (s : SimulatedScanner rng) (k : N) (tss : list Z)
    (obss : list Observation.t) :
  sim_wf s ->
  (1 <= k <= counter s)%N ->
  ~ In (mac_of_counter k) (map fst (active s)) ->
  In obss (snd (generates tss s)) ->
  ~ In (mac_of_counter k) (map Observation.mac obss)
  /\ ~ In (mac_of_counter k) (map fst (active (fst (generates tss s)))).
Proof.
  intros Hwf Hk Hgone Hin.
  destruct (generates_gone (mac_of_counter k) tss s k Hwf Hk eq_refl Hgone)
    as [H1 H2].
  split; [now apply H2 | exact H1].
Qed.

Lemma simulated_device_never_returns_witness :
  sim_wf sim_emptied
  /\ (1 <= 1 <= counter sim_emptied)%N
  /\ ~ In (mac_of_counter 1) (map fst (active sim_emptied))
  /\ In [] (snd (generates [base + seconds 2] sim_emptied))
  /\ ~ In (mac_of_counter 1) (map Observation.mac [])
  /\ ~ In (mac_of_counter 1)
          (map fst (active (fst (generates [base + seconds 2] sim_emptied)))).
Proof.
  assert (H1 : sim_wf sim_emptied).
  { split; simpl; [constructor | tauto]. }
  assert (H2 : (1 <= 1 <= counter sim_emptied)%N) by (simpl; lia).
  assert (H3 : ~ In (mac_of_counter 1) (map fst (active sim_emptied)))
    by (simpl; tauto).
  assert (H4 : In [] (snd (generates [base + seconds 2] sim_emptied)))
    by (simpl; left; reflexivity).
  exact (conj H1 (conj H2 (conj H3 (conj H4
           (simulated_device_never_returns sim_emptied 1
              [base + seconds 2] [] H1 H2 H3 H4))))).
Defined.

(** * Loading the configuration *)

(** ** Lists from the environment *)

Lemma lstrip_head (s : string) :
  match lstrip s with
  | String c _ => is_space c = false
  | EmptyString => True
  end.
Proof.
  induction s as [|c s IH]; simpl; [exact I|].
  destruct (is_space c) eqn:E; [exact IH | exact E].
Qed.

Lemma lstrip_fixed (s : string) :
  match s with
  | String c _ => is_space c = false
  | EmptyString => True
  end ->
  lstrip s = s.
Proof.
  destruct s as [|c s]; simpl; [reflexivity|]. now intros ->.
Qed.

Lemma rstrip_head (c : ascii) (s : string) :
  is_space c = false -> rstrip (String c s) = String c (rstrip s).
Proof.
  intros H. simpl. destruct (rstrip s); [now rewrite H | reflexivity].
Qed.

Lemma rstrip_rstrip (s : string) : rstrip (rstrip s) = rstrip s.
Proof.
  induction s as [|c s IH]; simpl; [reflexivity|].
  destruct (rstrip s) as [|c' r] eqn:E.
  - destruct (is_space c) eqn:Ec; simpl; [reflexivity | now rewrite Ec].
  - change (rstrip (String c (String c' r)) = String c (String c' r)).
    simpl in *. now rewrite IH.
Qed.

Lemma strip_fixed (s : string) : strip (strip s) = strip s.
Proof.
  unfold strip.
  assert (H : lstrip (rstrip (lstrip s)) = rstrip (lstrip s)).
  { pose proof (lstrip_head s) as Hh.
    destruct (lstrip s) as [|c t]; [reflexivity|].
    rewrite (rstrip_head c t Hh). simpl. now rewrite Hh. }
  now rewrite H, rstrip_rstrip.
Qed.

Lemma has_comma_lstrip (s : string) :
  has_comma s = false -> has_comma (lstrip s) = false.
Proof.
  induction s as [|c s IH]; simpl; [reflexivity|].
  intros H. apply orb_false_iff in H as [H1 H2].
  destruct (is_space c); [now apply IH | simpl; now rewrite H1, H2].
Qed.

Lemma has_comma_rstrip (s : string) :
  has_comma s = false -> has_comma (rstrip s) = false.
Proof.
  induction s as [|c s IH]; simpl; [reflexivity|].
  intros H. apply orb_false_iff in H as [H1 H2]. specialize (IH H2).
  destruct (rstrip s) as [|c' r].
  - destruct (is_space c); simpl; [reflexivity | now rewrite H1].
  - simpl in *. now rewrite H1, IH.
Qed.

Lemma split_comma_pieces (s : string) :
  split_comma s <> []
  /\ Forall (fun piece => has_comma piece = false) (split_comma s).
Proof.
  induction s as [|c s [IH1 IH2]]; simpl.
  - split; [discriminate | repeat constructor].
  - destruct (Ascii.eqb c ",") eqn:E.
    + split; [discriminate | now constructor].
    + destruct (split_comma s) as [|piece pieces]; [congruence|].
      split; [discriminate|]. inversion IH2; subst.
      constructor; [simpl; now rewrite E | assumption].
Qed.

(** X15 (a list read from the environment is clean): the items that
    [load_config] makes of a variable's text are never empty, carry no
    white space at either end and contain no comma; a text with nothing
    but commas and white space gives the empty list. *)
Theorem env_list_clean (value item : string) :
  In item (env_list value) ->
  item <> ""
  /\ strip item = item
  /\ has_comma item = false
  /\ exists piece, In piece (split_comma value) /\ item = strip piece.
Proof.
  unfold env_list. intros H. apply filter_In in H as [H Hne].
  apply in_map_iff in H as (piece & <- & Hp).
  split; [now destruct (strip piece)|].
  split; [apply strip_fixed|].
  split; [|now exists piece].
  destruct (split_comma_pieces value) as [_ Hall].
  rewrite Forall_forall in Hall.
  unfold strip. now apply has_comma_rstrip, has_comma_lstrip, Hall.
Qed.

Lemma env_list_clean_witness :
  In "0c:11" (env_list " 0c:11 ,, AA , ")
  /\ env_list " 0c:11 ,, AA , " = ["0c:11"; "AA"]
  /\ env_list " , ,, " = []
  /\ "0c:11" <> ""
  /\ strip "0c:11" = "0c:11".
Proof.
  assert (H : In "0c:11" (env_list " 0c:11 ,, AA , "))
    by (simpl; left; reflexivity).
  destruct (env_list_clean " 0c:11 ,, AA , " "0c:11" H) as (K1 & K2 & _).
  exact (conj H (conj eq_refl (conj eq_refl (conj K1 K2)))).
Defined.

(** ** Overrides *)

Lemma override_kind {B : PyBuiltins} (old v : yaml) (value : string) :
  override old value = Loaded v ->
  (kind_of old <> KOther -> kind_of v = kind_of old)
  /\ (kind_of old = KOther -> v = YStr value).
Proof.
  destruct old; simpl; try (intros [= <-]; split; [reflexivity || congruence
                                                  | reflexivity || discriminate]).
  - destruct (int_of_str value); [|discriminate].
    intros [= <-]. split; [reflexivity | discriminate].
  - destruct (float_of_str value); [|discriminate].
    intros [= <-]. split; [reflexivity | discriminate].
Qed.

(** X16 (what an override leaves alone): when [load_config] returns, the
    keys are those of the file, in the same order; an entry whose variable
    (the key in upper case) is not set is unchanged; a list, bool, int or
    float entry is still of that kind; any other entry whose variable is
    set holds the text of the variable.  If no variable is set the mapping
    comes back as it was read. *)
Theorem load_config_frame {B : PyBuiltins} (environ : string -> option string)
    (cfg cfg' : list (string * yaml)) :
  load_config environ cfg = Loaded cfg' ->
  map fst cfg' = map fst cfg
  /\ Forall2
       (fun p p' =>
          (environ (upper (fst p)) = None -> p' = p)
          /\ (kind_of (snd p) <> KOther -> kind_of (snd p') = kind_of (snd p))
          /\ (kind_of (snd p) = KOther ->
              forall value, environ (upper (fst p)) = Some value ->
                            snd p' = YStr value))
       cfg cfg'
  /\ ((forall key, In key (map fst cfg) -> environ (upper key) = None) ->
      cfg' = cfg).
Proof.
  revert cfg'. induction cfg as [|[key old] rest IH]; intros cfg'; simpl.
  - intros [= <-]. repeat split; constructor.
  - destruct (environ (upper key)) as [value|] eqn:E.
    + destruct (override old value) as [v|text] eqn:Eo; [|discriminate].
      destruct (load_config environ rest) as [rest'|text]; [|discriminate].
      intros [= <-]. destruct (IH rest' eq_refl) as (H1 & H2 & H3).
      apply override_kind in Eo as [K1 K2].
      split; [simpl; now rewrite H1|]. split.
      * constructor; [|exact H2]. simpl. rewrite E.
        split; [discriminate|]. split; [exact K1|].
        intros Hk value' [= <-]. now apply K2.
      * intros Hnone. specialize (Hnone key (or_introl eq_refl)). congruence.
    + destruct (load_config environ rest) as [rest'|text]; [|discriminate].
      intros [= <-]. destruct (IH rest' eq_refl) as (H1 & H2 & H3).
      split; [simpl; now rewrite H1|]. split.
      * constructor; [|exact H2]. simpl. rewrite E.
        split; [reflexivity|]. split; [reflexivity | discriminate].
      * intros Hnone. f_equal. apply H3. intros k Hk. apply Hnone. now right.
Qed.

Lemma load_config_frame_witness :
  load_config sample_environ sample_cfg =
    Loaded [("exclude_mac_prefixes", YList [YStr "0c:11"; YStr "AA"]);
            ("grace_seconds", YInt 7);
            ("simulate", YBool true);
            ("adapter", YStr "hci0")]
  /\ map fst [("exclude_mac_prefixes", YList [YStr "0c:11"; YStr "AA"]);
              ("grace_seconds", YInt 7);
              ("simulate", YBool true);
              ("adapter", YStr "hci0")]
     = map fst sample_cfg.
Proof.
  assert (H : load_config sample_environ sample_cfg =
              Loaded [("exclude_mac_prefixes", YList [YStr "0c:11"; YStr "AA"]);
                      ("grace_seconds", YInt 7);
                      ("simulate", YBool true);
                      ("adapter", YStr "hci0")]) by reflexivity.
  exact (conj H (proj1 (load_config_frame sample_environ sample_cfg _ H))).
Defined.

(** X17 (a bool is set by any text): when the variable of a bool entry is
    set to a text that is not empty, [load_config] stores [True] there,
    whatever the text says and whatever the file had. *)
Theorem bool_override_is_true {B : PyBuiltins}
    (environ : string -> option string) (cfg cfg' : list (string * yaml))
    (key value : string) (b : bool) :
  load_config environ cfg = Loaded cfg' ->
  In (key, YBool b) cfg ->
  environ (upper key) = Some value ->
  value <> "" ->
  In (key, YBool true) cfg'.
Proof.
  intros Hload Hin Henv Hne. revert cfg' Hload.
  induction cfg as [|[k old] rest IH]; intros cfg'; simpl in *; [tauto|].
  destruct (match environ (upper k) with
            | Some value0 => override old value0
            | None => Loaded old
            end) as [v|text] eqn:Ee; [|discriminate].
  destruct (load_config environ rest) as [rest'|text]; [|discriminate].
  intros [= <-]. destruct Hin as [Hin|Hin].
  - injection Hin as -> ->. rewrite Henv in Ee. simpl in Ee.
    injection Ee as <-. left. destruct value; [congruence | reflexivity].
  - right. now apply IH.
Qed.

Lemma bool_override_is_true_witness :
  In ("simulate", YBool false) [("simulate", YBool false)]
  /\ sample_environ (upper "simulate") = Some "false"
  /\ "false" <> ""
  /\ load_config sample_environ [("simulate", YBool false)]
     = Loaded [("simulate", YBool true)]
  /\ In ("simulate", YBool true) [("simulate", YBool true)].
Proof.
  assert (H1 : load_config sample_environ [("simulate", YBool false)]
               = Loaded [("simulate", YBool true)]) by reflexivity.
  assert (H2 : In ("simulate", YBool false) [("simulate", YBool false)])
    by (simpl; left; reflexivity).
  assert (H3 : sample_environ (upper "simulate") = Some "false")
    by reflexivity.
  assert (H4 : "false" <> "") by discriminate.
  exact (conj H2 (conj H3 (conj H4 (conj H1
           (bool_override_is_true sample_environ _ _ "simulate" "false" false
              H1 H2 H3 H4))))).
Defined.

Lemma entry_outcome {B : PyBuiltins} (environ : string -> option string)
    (key : string) (old : yaml) :
  match match environ (upper key) with
        | Some value => override old value
        | None => Loaded old
        end with
  | ValueError text =>
      unreadable environ (key, old) = true
      /\ environ (upper key) = Some text
  | Loaded _ => unreadable environ (key, old) = false
  end.
Proof.
  unfold unreadable. simpl.
  destruct (environ (upper key)) as [value|]; [|reflexivity].
  destruct old; simpl; try reflexivity.
  - destruct (int_of_str value); simpl; auto.
  - destruct (float_of_str value); simpl; auto.
Qed.

(** X18 (when loading fails): [load_config] raises [ValueError] exactly
    when some int or float entry has its variable set to a text that [int],
    respectively [float], does not read; the error is about the first such
    text.  Otherwise it returns a mapping. *)
Theorem load_config_fails_iff {B : PyBuiltins}
    (environ : string -> option string) (cfg : list (string * yaml)) :
  match load_config environ cfg with
  | ValueError text =>
      existsb (unreadable environ) cfg = true
      /\ exists p, find (unreadable environ) cfg = Some p
                   /\ environ (upper (fst p)) = Some text
  | Loaded _ => existsb (unreadable environ) cfg = false
  end.
Proof.
  induction cfg as [|[key old] rest IH]; simpl; [reflexivity|].
  pose proof (entry_outcome environ key old) as He.
  destruct (match environ (upper key) with
            | Some value => override old value
            | None => Loaded old
            end) as [v|text].
  - rewrite He. simpl. destruct (load_config environ rest); exact IH.
  - destruct He as [He1 He2]. rewrite He1. simpl.
    split; [reflexivity|]. eexists. split; [reflexivity | exact He2].
Qed.

(** * The seen flag *)

Lemma lookup_updates_new_scan (t : DeviceTracker) (obss : list Observation.t)
    (a : string) :
  wf t ->
  lookup a (devices (updates obss (new_scan t)))
  = observe_all a obss (option_map (Info.set_seen false) (lookup a (devices t))).
Proof.
  intros Hwf.
  destruct (run_ok (NewScan :: map Update obss) t Hwf)
    as (t' & evs & E & _ & _ & _ & L).
  assert (Ht : t' = updates obss (new_scan t)).
  { simpl in E.
    pose proof (run_updates obss [] (new_scan t)) as Hr.
    rewrite app_nil_r in Hr. rewrite Hr in E. simpl in E. congruence. }
  subst t'. destruct (L a) as [R _]. rewrite R.
  cbn [steps_record step_record]. now rewrite steps_updates.
Qed.

(** X19 (the seen flag marks the scan): between [new_scan] and
    [finalize_scan], an address has a record whenever it was observed in
    this scan, and the seen flag of a record is set exactly when its
    address was. *)
Theorem seen_flag_marks_observed
    (t : DeviceTracker) (obss : list Observation.t) (a : string) :
  wf t ->
  (In a (map Observation.mac obss) ->
   exists i, lookup a (devices (updates obss (new_scan t))) = Some i)
  /\ forall i,
      lookup a (devices (updates obss (new_scan t))) = Some i ->
      (Info.seen i = Some true <-> In a (map Observation.mac obss))
      /\ (Info.seen i = Some false <-> ~ In a (map Observation.mac obss)).
Proof.
  intros Hwf. rewrite (lookup_updates_new_scan t obss a Hwf).
  unfold observe_all.
  destruct (last_obs a obss) as [o|] eqn:E.
  - assert (Hin : In a (map Observation.mac obss)).
    { destruct (in_dec string_dec a (map Observation.mac obss)) as [H|H];
        [exact H|]. apply last_obs_None in H. congruence. }
    split; [eauto|]. intros i [= <-]. simpl.
    split; split; try tauto; try discriminate; intros H; now elim H.
  - apply last_obs_None in E. split; [tauto|].
    intros i Hi. destruct (lookup a (devices t)) as [i0|]; [|discriminate].
    injection Hi as <-. simpl.
    split; split; try tauto; try discriminate.
Qed.

Lemma seen_flag_marks_observed_witness :
  wf confirmed_tracker
  /\ In "AA:BB:CC:DD:EE:02" (map Observation.mac [obs_weak])
  /\ (exists i, lookup "AA:BB:CC:DD:EE:02"
                  (devices (updates [obs_weak] (new_scan confirmed_tracker)))
                = Some i)
  /\ lookup "AA:BB:CC:DD:EE:01"
       (devices (updates [obs_weak] (new_scan confirmed_tracker)))
     = Some (Info.set_seen false confirmed_info).
Proof.
  assert (H1 : wf confirmed_tracker) by (apply wfb_wf; reflexivity).
  assert (H2 : In "AA:BB:CC:DD:EE:02" (map Observation.mac [obs_weak]))
    by (simpl; left; reflexivity).
  exact (conj H1 (conj H2
           (conj (proj1 (seen_flag_marks_observed confirmed_tracker [obs_weak]
                           "AA:BB:CC:DD:EE:02" H1) H2)
                 eq_refl))).
Defined.

(** * The simulator and the tracker together *)

Lemma last_obs_NoDup (obss : list Observation.t) (o : Observation.t) :
  NoDup (map Observation.mac obss) ->
  In o obss ->
  last_obs (Observation.mac o) obss = Some o.
Proof.
  induction obss as [|o' rest IH]; simpl; [tauto|].
  intros Hnd Hin. inversion Hnd as [|? ? Hn Hnd']; subst.
  destruct Hin as [->|Hin].
  - apply last_obs_None in Hn. rewrite Hn. now rewrite String.eqb_refl.
  - now rewrite (IH Hnd' Hin).
Qed.

Lemma fin_info_keeps (a : string) (i : Info.t) :
  Info.name (snd (fin_info (a, i))) = Info.name i
  /\ Info.last_rssi (snd (fin_info (a, i))) = Info.last_rssi i
  /\ Info.last_seen (snd (fin_info (a, i))) = Info.last_seen i
  /\ Info.address_type (snd (fin_info (a, i))) = Info.address_type i.
Proof.
  unfold fin_info, finalize_one. simpl.
  destruct (Info.seen i) as [[|]|]; simpl; auto.
  destruct (_ && _); simpl; auto.
Qed.

(** X20 (the tracker mirrors the simulator): when the observations of one
    [generate] are fed to the tracker as one scan, no call raises and every
    device the simulator holds after the call has a record in the tracker
    with the simulator's name and signal strength for it, the address type
    ["public"] and the timestamp of the scan. *)
Theorem tracker_mirrors_simulator {rng : Type} {G : RandomGen rng} (ts : Z)
    (s : SimulatedScanner rng) (t : DeviceTracker) (mac : string)
    (info : SimInfo.t) :
  sim_wf s ->
  wf t ->
  In (mac, info) (active (fst (generate ts s))) ->
  exists t' evs i,
    scan (snd (generate ts s)) t = (t', Ok evs)
    /\ lookup mac (devices t') = Some i
    /\ Info.name i = SimInfo.name info
    /\ Info.last_rssi i = SimInfo.rssi info
    /\ Info.address_type i = "public"
    /\ Info.last_seen i = Some ts.
Proof.
  intros Hs Hwf Hin.
  destruct (generate_reports_active_aux ts s Hs) as (Hs' & Hobs & _ & _).
  destruct (scan_local (snd (generate ts s)) t Hwf)
    as (t' & evs & E & _ & _ & _ & L).
  assert (Ho : last_obs mac (snd (generate ts s))
               = Some (sim_observation ts (mac, info))).
  { apply (last_obs_NoDup _ (sim_observation ts (mac, info))).
    - rewrite Hobs, map_map. simpl. exact (proj1 Hs').
    - rewrite Hobs. now apply in_map. }
  destruct (L mac) as [R _]. unfold scan_record, observe_all in R.
  rewrite Ho in R. simpl in R.
  exists t', evs. eexists. split; [exact E|]. split; [exact R|].
  destruct (fin_info_keeps mac
              (updated (sim_observation ts (mac, info))
                 (option_map (Info.set_seen false) (lookup mac (devices t)))))
    as (K1 & K2 & K3 & K4).
  rewrite K1, K2, K3, K4. auto.
Qed.

Lemma tracker_mirrors_simulator_witness :
  sim_wf sim_start
  /\ wf (init 10 20)
  /\ In ("02:00:00:00:00:01", SimInfo.mk "Sim01" (-63))
        (active (fst (generate base sim_start)))
  /\ exists t' evs i,
      scan (snd (generate base sim_start)) (init 10 20) = (t', Ok evs)
      /\ lookup "02:00:00:00:00:01" (devices t') = Some i
      /\ Info.name i = "Sim01"
      /\ Info.last_rssi i = -63
      /\ Info.address_type i = "public"
      /\ Info.last_seen i = Some base.
Proof.
  assert (H1 : sim_wf sim_start).
  { split; simpl; [constructor | tauto]. }
  assert (H2 : wf (init 10 20)) by apply wf_init.
  assert (H3 : In ("02:00:00:00:00:01", SimInfo.mk "Sim01" (-63))
                  (active (fst (generate base sim_start))))
    by (simpl; left; reflexivity).
  exact (conj H1 (conj H2 (conj H3
           (tracker_mirrors_simulator base sim_start (init 10 20)
              "02:00:00:00:00:01" (SimInfo.mk "Sim01" (-63)) H1 H2 H3)))).
Defined.
